(** * MBTilesMap: the MBTiles raster map of GPXSee

    A shallow embedding of [src/map/mbtilesmap.cpp] together with the
    properties of its zoom handling, tile addressing, bounds and
    coordinate conversions.

    Conventions of the embedding:
    - C++ [int] is a 32-bit two's complement integer, carried by [Z] with
      the wrap-around of every arithmetic operation written out;
    - [double]/[qreal] quantities are idealised as real numbers;
    - the SQLite connection is described by what [QSqlDatabase] and
      [QSqlQuery] hand back to the caller;
    - the functions of namespace [osm] and the macros of [config.h] are
      declared in files that are not part of the sources at hand: they are
      interfaces here, with one instance written from the specification. *)

From Stdlib Require Import ZArith Reals Lra Lia List String Ascii Bool.
From Stdlib Require Import Strings.Byte DecimalString Relations.
From Stdlib Require Import DecimalPos DecimalZ.
Import ListNotations.

Local Open Scope Z_scope.

(** ** 32-bit signed integers *)

Module CInt.

Definition int := Z.
Bind Scope Z_scope with int.

Definition INT_MIN : Z := - 2 ^ 31.
Definition INT_MAX : Z := 2 ^ 31 - 1.

(** The value an [int] holds after an operation whose mathematical
    result is [z]. *)
Definition wrap (z : Z) : int := (z + 2 ^ 31) mod 2 ^ 32 - 2 ^ 31.

Definition representable (z : Z) : Prop := INT_MIN <= z <= INT_MAX.

Definition add (a b : int) : int := wrap (a + b).
Definition sub (a b : int) : int := wrap (a - b).

(** [a << n]; the C++ operator is defined for [0 <= n < 32] only. *)
Definition shl (a n : int) : int := wrap (Z.shiftl a n).

(** Conversion of an [int] to [double]. *)
Definition to_double (a : int) : R := IZR a.

End CInt.

Import CInt.

(** ** The Qt value types used by the map *)

Definition qreal := R.

Definition QByteArray := list byte.

Record QPointF := mkQPointF { pf_x : qreal; pf_y : qreal }.

Record QPoint := mkQPoint { pt_x : int; pt_y : int }.

Record QSize := mkQSize { sz_width : int; sz_height : int }.

Record QSizeF := mkQSizeF { szf_width : qreal; szf_height : qreal }.

(** A [QRectF] stores its top-left corner and its size. *)
Record QRectF := mkQRectF
  { rf_x : qreal; rf_y : qreal; rf_w : qreal; rf_h : qreal }.

Local Open Scope R_scope.

(** [QPointF * qreal] and [QPointF / qreal]. *)
Definition pf_mul (p : QPointF) (c : qreal) : QPointF :=
  mkQPointF (pf_x p * c) (pf_y p * c).

Definition pf_div (p : QPointF) (c : qreal) : QPointF :=
  mkQPointF (pf_x p / c) (pf_y p / c).

(** [QRectF(topLeft, bottomRight)]. *)
Definition QRectF_of_corners (tl br : QPointF) : QRectF :=
  mkQRectF (pf_x tl) (pf_y tl) (pf_x br - pf_x tl) (pf_y br - pf_y tl).

Definition rf_left (r : QRectF) : qreal := rf_x r.
Definition rf_top (r : QRectF) : qreal := rf_y r.
Definition rf_right (r : QRectF) : qreal := rf_x r + rf_w r.
Definition rf_bottom (r : QRectF) : qreal := rf_y r + rf_h r.
Definition rf_width (r : QRectF) : qreal := rf_w r.
Definition rf_height (r : QRectF) : qreal := rf_h r.
Definition rf_topLeft (r : QRectF) : QPointF := mkQPointF (rf_x r) (rf_y r).

(** [qMin(a, b)] is [(a < b) ? a : b] and [qMax(a, b)] is [(a < b) ? b : a]. *)
Definition qMinR (a b : R) : R := if Rlt_dec a b then a else b.
Definition qMaxR (a b : R) : R := if Rlt_dec a b then b else a.

Definition qMin (a b : int) : int := if (a <? b)%Z then a else b.
Definition qMax (a b : int) : int := if (a <? b)%Z then b else a.

(** [floor] and [ceil] return a [double] holding an integer. *)
Definition floor (x : R) : R := IZR (Zfloor x).
Definition ceil (x : R) : R := IZR (Zceil x).

(** [QString::number(int)]. *)
Definition number (n : int) : string := NilZero.string_of_int (Z.to_int n).

(** A [QPixmap] that is not null: the decoded image and its device pixel
    ratio. The null pixmap is [None] of [option QPixmap]. *)
Record QPixmap := mkQPixmap { pm_image : list byte; pm_ratio : qreal }.

Definition setDevicePixelRatio (pm : QPixmap) (r : qreal) : QPixmap :=
  mkQPixmap (pm_image pm) r.

(** *** The SQL side *)

Inductive MetaType :=
| MT_UnknownType | MT_Int | MT_LongLong | MT_Double | MT_QString
| MT_QByteArray.

Definition MetaType_eqb (a b : MetaType) : bool :=
  match a, b with
  | MT_UnknownType, MT_UnknownType | MT_Int, MT_Int
  | MT_LongLong, MT_LongLong | MT_Double, MT_Double
  | MT_QString, MT_QString | MT_QByteArray, MT_QByteArray => true
  | _, _ => false
  end.

Record QSqlField := mkField { fld_name : string; fld_type : MetaType }.

(** A default-constructed field, as [QSqlRecord::field] returns for an
    index that is out of range. *)
Definition QSqlField_null : QSqlField := mkField EmptyString MT_UnknownType.

Definition QSqlRecord := list QSqlField.

Definition rec_isEmpty (r : QSqlRecord) : bool :=
  match r with [] => true | _ => false end.

Definition rec_field (r : QSqlRecord) (i : nat) : QSqlField :=
  nth i r QSqlField_null.

(** What the database file answers to the statements the map issues.
    Each query is given by its first row with the values already
    converted by [toInt()] / [toByteArray()], or [None] when
    [QSqlQuery::first()] returns false. *)
Record DbFile := mkDbFile
  { (** does [QSqlDatabase::open()] succeed *)
    file_opens : bool;
    (** [record("tiles")] *)
    file_tiles_record : QSqlRecord;
    (** [SELECT min(zoom_level), max(zoom_level) FROM tiles] *)
    file_zoom_levels : option (int * int);
    (** [SELECT min(tile_column), min(tile_row), max(tile_column),
        max(tile_row) FROM tiles WHERE zoom_level = z]; the result of
        [first()] is not looked at, a missing value converts to 0 *)
    file_extrema : int -> int * int * int * int;
    (** [SELECT tile_data FROM tiles WHERE zoom_level=:zoom AND
        tile_column=:x AND tile_row=:y] *)
    file_tile : int -> int -> int -> option QByteArray }.

(** The connection object [_db]. *)
Record QSqlDatabase := mkDb
  { db_name : string; db_file : DbFile; db_isOpen : bool }.

Definition db_open (d : QSqlDatabase) : QSqlDatabase * bool :=
  (mkDb (db_name d) (db_file d) (file_opens (db_file d)),
   file_opens (db_file d)).

Definition db_close (d : QSqlDatabase) : QSqlDatabase :=
  mkDb (db_name d) (db_file d) false.

(** ** Types of [common/] *)

Record Coordinates := mkCoordinates { lon : R; lat : R }.

(** [tl.rlat() = v]. *)
Definition set_lat (c : Coordinates) (v : R) : Coordinates :=
  mkCoordinates (lon c) v.

Record RectC := mkRectC { topLeft : Coordinates; bottomRight : Coordinates }.

Record Range := mkRange { range_min : int; range_max : int }.

(** Modelled from the spec: [Range::isValid] is declared in
    [common/range.h], which is not among the sources. A zoom range is an
    inclusive interval [[min, max]] with [min <= max]. *)
Definition Range_isValid (r : Range) : bool :=
  (range_min r <=? range_max r)%Z.

(** Modelled from the spec: the macros [rad2deg] and [deg2rad] come from
    a header that is not among the sources; they convert between radians
    and degrees, so that a half turn is 180 degrees. *)
Definition rad2deg (r : R) : R := 180 * r / PI.
Definition deg2rad (d : R) : R := PI * d / 180.

(** ** Interfaces of [osm.h] and [config.h] *)

(** The functions of namespace [osm] the map calls. *)
Class Osm := mkOsm
  { ll2m : Coordinates -> QPointF;
    m2ll : QPointF -> Coordinates;
    zoom2scale : int -> qreal;
    scale2zoom : qreal -> int;
    mercator2tile : QPointF -> int -> QPoint }.

(** The macros of [config.h] the map uses. *)
Class Config := mkConfig
  { TILE_SIZE : int;
    ENABLE_HIDPI : bool }.

(** ** The map *)

(** [index2mercator], lines 16-19. *)
Definition index2mercator (index zoom : int) : R :=
  rad2deg (- PI + 2 * PI * (to_double index / to_double (shl 1 zoom))).

Record MBTilesMap := mkMap
  { _db : QSqlDatabase;
    _fileName : string;
    _zooms : Range;
    _bounds : RectC;
    _zoom : int;
    _deviceRatio : qreal;
    _tileRatio : qreal;
    _valid : bool;
    _errorString : string }.

(** The members the constructor's initialiser list does not mention are
    default-constructed ([_zooms], [_bounds]) or left indeterminate
    ([_zoom]); their initial content is an input of the constructor. *)
Record Uninitialised := mkUninit
  { init_zooms : Range; init_bounds : RectC; init_zoom : int }.

(** The column signature the constructor asks of table [tiles]. *)
Definition tiles_signature_ok (r : QSqlRecord) : bool :=
  negb
    (rec_isEmpty r
     || negb (String.eqb (fld_name (rec_field r 0)) "zoom_level")
     || negb (MetaType_eqb (fld_type (rec_field r 0)) MT_Int)
     || negb (String.eqb (fld_name (rec_field r 1)) "tile_column")
     || negb (MetaType_eqb (fld_type (rec_field r 1)) MT_Int)
     || negb (String.eqb (fld_name (rec_field r 2)) "tile_row")
     || negb (MetaType_eqb (fld_type (rec_field r 2)) MT_Int)
     || negb (String.eqb (fld_name (rec_field r 3)) "tile_data")
     || negb (MetaType_eqb (fld_type (rec_field r 3)) MT_QByteArray)).

(** A tile index read from the table, forced into [[0, 2^zoom - 1]]. *)
Definition clamp_index (zoom v : int) : int :=
  qMin (sub (shl 1 zoom) 1) (qMax 0 v).

Section Map.

Context {O : Osm} {C : Config}.

(** The bounds block of the constructor, lines 62-83. *)
Definition compute_bounds (f : DbFile) (zooms : Range) : RectC :=
  let '(c0, r0, c1, r1) := file_extrema f (range_min zooms) in
  let z := range_min zooms in
  let minX := index2mercator (clamp_index z c0) z in
  let minY := index2mercator (clamp_index z r0) z in
  let maxX := index2mercator (add (clamp_index z c1) 1) z in
  let maxY := index2mercator (add (clamp_index z r1) 1) z in
  let tl := m2ll (mkQPointF minX maxY) in
  let br := m2ll (mkQPointF maxX minY) in
  let tl := set_lat tl (qMinR (lat tl) 85.0511) in
  let br := set_lat br (qMaxR (lat br) (-85.0511)) in
  mkRectC tl br.

(** [MBTilesMap::MBTilesMap], lines 21-88. [f] is the file [fileName]
    names; every early [return] leaves the members assigned so far. *)
Definition MBTilesMap_new (fileName : string) (f : DbFile)
    (u : Uninitialised) : MBTilesMap :=
  let m :=
    mkMap (mkDb fileName f false) fileName (init_zooms u) (init_bounds u)
          (init_zoom u) 1 1 false EmptyString in
  let '(db, opened) := db_open (_db m) in
  if negb opened then
    mkMap db fileName (_zooms m) (_bounds m) (_zoom m) 1 1 false
          (fileName ++ ": Error opening database file")
  else if negb (tiles_signature_ok (file_tiles_record f)) then
    mkMap db fileName (_zooms m) (_bounds m) (_zoom m) 1 1 false
          "Invalid table format"
  else
    match file_zoom_levels f with
    | None =>
        mkMap db fileName (_zooms m) (_bounds m) (_zoom m) 1 1 false
              "Empty tile set"
    | Some (lo, hi) =>
        let zooms := mkRange lo hi in
        if (range_min zooms <? 0)%Z || negb (Range_isValid zooms) then
          mkMap db fileName zooms (_bounds m) (_zoom m) 1 1 false
                "Invalid zoom levels"
        else
          let zoom := range_max zooms in
          let bounds := compute_bounds f zooms in
          mkMap (db_close db) fileName zooms bounds zoom 1 1 true
                EmptyString
    end.

(** [load] and [unload], lines 95-103. *)
Definition load (m : MBTilesMap) : MBTilesMap :=
  mkMap (fst (db_open (_db m))) (_fileName m) (_zooms m) (_bounds m)
        (_zoom m) (_deviceRatio m) (_tileRatio m) (_valid m)
        (_errorString m).

Definition unload (m : MBTilesMap) : MBTilesMap :=
  mkMap (db_close (_db m)) (_fileName m) (_zooms m) (_bounds m)
        (_zoom m) (_deviceRatio m) (_tileRatio m) (_valid m)
        (_errorString m).

(** Assignment to [_zoom]. *)
Definition set_zoom (m : MBTilesMap) (z : int) : MBTilesMap :=
  mkMap (_db m) (_fileName m) (_zooms m) (_bounds m) z
        (_deviceRatio m) (_tileRatio m) (_valid m) (_errorString m).

(** [limitZoom], lines 110-118. *)
Definition limitZoom (m : MBTilesMap) (zoom : int) : int :=
  if (zoom <? range_min (_zooms m))%Z then range_min (_zooms m)
  else if (zoom >? range_max (_zooms m))%Z then range_max (_zooms m)
  else zoom.

(** [coordinatesRatio], [imageRatio], [tileSize], lines 154-167. *)
Definition coordinatesRatio (m : MBTilesMap) : qreal :=
  if Rlt_dec 1 (_deviceRatio m) then _deviceRatio m / _tileRatio m else 1.

Definition imageRatio (m : MBTilesMap) : qreal :=
  if Rlt_dec 1 (_deviceRatio m) then _deviceRatio m else _tileRatio m.

Definition tileSize (m : MBTilesMap) : qreal :=
  to_double TILE_SIZE / coordinatesRatio m.

(** [zoomIn] and [zoomOut], lines 142-152: the new state and the value
    returned. *)
Definition zoomIn (m : MBTilesMap) : MBTilesMap * int :=
  let z := qMin (add (_zoom m) 1) (range_max (_zooms m)) in
  (set_zoom m z, z).

Definition zoomOut (m : MBTilesMap) : MBTilesMap * int :=
  let z := qMax (sub (_zoom m) 1) (range_min (_zooms m)) in
  (set_zoom m z, z).

(** [ll2xy] and [xy2ll], lines 222-234. *)
Definition ll2xy (m : MBTilesMap) (c : Coordinates) : QPointF :=
  let scale := zoom2scale (_zoom m) in
  let p := ll2m c in
  pf_div (mkQPointF (pf_x p / scale) (pf_y p / - scale))
         (coordinatesRatio m).

Definition xy2ll (m : MBTilesMap) (p : QPointF) : Coordinates :=
  let scale := zoom2scale (_zoom m) in
  m2ll (pf_mul (mkQPointF (pf_x p * scale) (- pf_y p * scale))
               (coordinatesRatio m)).

(** [bounds], lines 105-108. *)
Definition bounds (m : MBTilesMap) : QRectF :=
  QRectF_of_corners (ll2xy m (topLeft (_bounds m)))
                    (ll2xy m (bottomRight (_bounds m))).

(** [zoomFit], lines 120-132. [RectC::isValid] is declared in
    [common/rectc.h], which is not among the sources; it is a parameter. *)
Definition zoomFit (isValid : RectC -> bool) (m : MBTilesMap)
    (size : QSize) (rect : RectC) : MBTilesMap * int :=
  let z :=
    if negb (isValid rect) then range_max (_zooms m)
    else
      let tbr := QRectF_of_corners (ll2m (topLeft rect))
                                   (ll2m (bottomRight rect)) in
      let sc := mkQPointF (rf_width tbr / to_double (sz_width size))
                          (rf_height tbr / to_double (sz_height size)) in
      limitZoom m (scale2zoom (qMaxR (pf_x sc) (- pf_y sc)
                               / coordinatesRatio m))
  in (set_zoom m z, z).

End Map.

(** ** Fetching and drawing tiles *)

(** The process-wide [QPixmapCache]: the most recent insertion first.
    The cache is taken without a size limit: what it evicts by itself when
    it is full is not part of this model. *)
Definition QPixmapCache := list (string * QPixmap).

Fixpoint cache_find (key : string) (c : QPixmapCache) : option QPixmap :=
  match c with
  | [] => None
  | (k, pm) :: c' => if String.eqb k key then Some pm else cache_find key c'
  end.

Definition cache_insert (key : string) (pm : QPixmap) (c : QPixmapCache)
    : QPixmapCache :=
  (key, pm) :: c.

(** What [draw] does to its collaborators, in the order it does it. *)
Inductive DrawEvent :=
| EvCacheFind (key : string)
| EvTileData (zoom : int) (tile : QPoint)
| EvCacheInsert (key : string) (pm : QPixmap)
| EvDrawPixmap (tp : QPointF) (pm : QPixmap).

Record DrawState := mkDrawState
  { ds_cache : QPixmapCache; ds_events : list DrawEvent }.

Definition emit (e : DrawEvent) (s : DrawState) : DrawState :=
  mkDrawState (ds_cache s) (ds_events s ++ [e]).

(** [for (int i = 0; i < bound; i++) body], with a [double] bound: the
    body runs for every [i >= 0] below [bound]. *)
Definition for_loop {S : Type} (bound : R) (body : int -> S -> S) (s : S)
    : S :=
  fold_left (fun acc i => body (Z.of_nat i) acc)
            (seq 0 (Z.to_nat (Zceil bound))) s.

Section Draw.

Context {O : Osm} {C : Config}.

(** [QPixmap::loadFromData]: the decoded pixmap, or [None] when the
    data is not an image. *)
Variable loadFromData : QByteArray -> option QPixmap.

(** The row bound to [:y] in [tileData], line 176. *)
Definition storageRow (zoom row : int) : int :=
  sub (sub (shl 1 zoom) row) 1.

(** [tileData], lines 169-183. On a closed connection the statement
    cannot run and no row is found. *)
Definition tileData (m : MBTilesMap) (zoom : int) (tile : QPoint)
    : QByteArray :=
  if db_isOpen (_db m) then
    match file_tile (db_file (_db m)) zoom (pt_x tile)
                    (storageRow zoom (pt_y tile)) with
    | Some data => data
    | None => []
    end
  else [].

Definition tile_key (m : MBTilesMap) (t : QPoint) : string :=
  (_fileName m ++ "-" ++ number (_zoom m) ++ "_" ++ number (pt_x t)
   ++ "_" ++ number (pt_y t))%string.

(** The tile-aligned point at or before the viewport's top-left corner,
    lines 194-195. *)
Definition draw_origin (m : MBTilesMap) (rect : QRectF) : QPointF :=
  mkQPointF (floor (rf_left rect / tileSize m) * tileSize m)
            (floor (rf_top rect / tileSize m) * tileSize m).

(** The extent to cover, lines 197-198. *)
Definition draw_extent (m : MBTilesMap) (rect : QRectF) : QSizeF :=
  let b := bounds m in
  let tl := draw_origin m rect in
  mkQSizeF (qMinR (rf_right rect - pf_x tl) (rf_width b))
           (qMinR (rf_bottom rect - pf_y tl) (rf_height b)).

(** The body of the inner loop, lines 201-217. *)
Definition draw_tile (m : MBTilesMap) (tile : QPoint) (tl : QPointF)
    (b : QRectF) (i j : int) (s : DrawState) : DrawState :=
  let t := mkQPoint (add (pt_x tile) i) (add (pt_y tile) j) in
  let key := tile_key m t in
  let s := emit (EvCacheFind key) s in
  let '(pm, s) :=
    match cache_find key (ds_cache s) with
    | Some pm => (Some pm, s)
    | None =>
        let s := emit (EvTileData (_zoom m) t) s in
        match loadFromData (tileData m (_zoom m) t) with
        | Some pm =>
            (Some pm,
             emit (EvCacheInsert key pm)
                  (mkDrawState (cache_insert key pm (ds_cache s))
                               (ds_events s)))
        | None => (None, s)
        end
    end in
  let tp :=
    mkQPointF
      (qMaxR (pf_x tl) (rf_left b)
       + to_double (sub (pt_x t) (pt_x tile)) * tileSize m)
      (qMaxR (pf_y tl) (rf_top b)
       + to_double (sub (pt_y t) (pt_y tile)) * tileSize m) in
  match pm with
  | Some pm =>
      let pm :=
        if ENABLE_HIDPI then setDevicePixelRatio pm (imageRatio m)
        else pm in
      emit (EvDrawPixmap tp pm) s
  | None => s
  end.

(** [draw], lines 185-220. *)
Definition draw (m : MBTilesMap) (rect : QRectF) (s : DrawState)
    : DrawState :=
  let scale := zoom2scale (_zoom m) in
  let b := bounds m in
  let tile :=
    mercator2tile
      (pf_mul (mkQPointF (pf_x (rf_topLeft rect) * scale)
                         (- pf_y (rf_topLeft rect) * scale))
              (coordinatesRatio m))
      (_zoom m) in
  let tl := draw_origin m rect in
  let sz := draw_extent m rect in
  for_loop (ceil (szf_width sz / tileSize m))
    (fun i =>
       for_loop (ceil (szf_height sz / tileSize m))
         (fun j => draw_tile m tile tl b i j))
    s.

End Draw.

(** ** The projection of the specification *)

Module OsmSpec.

(** Modelled from the spec: [osm::ll2m], the standard spherical
    Mercator forward projection, on a plane measured in degrees (the
    same plane [index2mercator] produces coordinates of). [osm.cpp] is
    not among the sources. *)
Definition ll2m (c : Coordinates) : QPointF :=
  mkQPointF (lon c)
            (rad2deg (ln (tan (PI / 4 + deg2rad (lat c) / 2)))).

(** Modelled from the spec: [osm::m2ll], the inverse mapping. *)
Definition m2ll (p : QPointF) : Coordinates :=
  mkCoordinates (pf_x p)
                (rad2deg (2 * atan (exp (deg2rad (pf_y p))) - PI / 2)).

(** Modelled from the spec: [osm::zoom2scale]; at zoom [z] the world,
    360 units around, spans [tileSize * 2^z] pixels. *)
Definition zoom2scale (tileSize : int) (zoom : int) : qreal :=
  360 / IZR (tileSize * 2 ^ zoom).

(** Conversion of a [double] to [int]: towards zero. *)
Definition truncate (x : R) : int :=
  if Rlt_dec x 0 then Zceil x else Zfloor x.

(** Modelled from the spec: [osm::scale2zoom], the base-2 logarithm
    that inverts [zoom2scale], converted to [int]. *)
Definition scale2zoom (tileSize : int) (scale : qreal) : int :=
  truncate (ln (360 / (scale * IZR tileSize)) / ln 2).

(** Modelled from the spec: [osm::mercator2tile], the indices of the
    tile that holds a point of the plane, rows counted southward. *)
Definition mercator2tile (p : QPointF) (zoom : int) : QPoint :=
  mkQPoint (Zfloor ((pf_x p + 180) / 360 * IZR (2 ^ zoom)))
           (Zfloor ((1 - pf_y p / 180) / 2 * IZR (2 ^ zoom))).

(** The tile size the specification calls common. *)
Definition config : Config := mkConfig 256 false.

Definition osm : Osm :=
  mkOsm ll2m m2ll (zoom2scale 256) (scale2zoom 256) mercator2tile.

End OsmSpec.


(** ** An SQLite file holding a [tiles] table

    The answers [QSqlQuery] gives to the statements of the map, computed
    from the rows of the table. *)

Module Sqlite.

Record TileRow := mkRow
  { zoom_level : int; tile_column : int; tile_row : int;
    tile_data : QByteArray }.

(** A value of a result row: an integer as SQLite holds it, or [None]
    for SQL NULL. *)
Definition QVariant := option Z.

(** [QVariant::toInt()]: a NULL converts to 0, and of the 64-bit integer
    SQLite holds the low 32 bits are kept. *)
Definition toInt (v : QVariant) : int :=
  match v with Some z => wrap z | None => 0 end.

(** The SQL aggregates [min] and [max]: NULL over no rows. *)
Definition sql_min (l : list int) : QVariant :=
  match l with [] => None | x :: l' => Some (fold_left Z.min l' x) end.

Definition sql_max (l : list int) : QVariant :=
  match l with [] => None | x :: l' => Some (fold_left Z.max l' x) end.

(** The columns of a well-formed [tiles] table. *)
Definition tiles_record : QSqlRecord :=
  [ mkField "zoom_level" MT_Int; mkField "tile_column" MT_Int;
    mkField "tile_row" MT_Int; mkField "tile_data" MT_QByteArray ].

Definition at_zoom (z : int) (rows : list TileRow) : list TileRow :=
  filter (fun r => (zoom_level r =? z)%Z) rows.

(** A readable file whose [tiles] table holds [rows]. A [SELECT] of
    aggregates without [GROUP BY] has exactly one result row, whatever the
    number of rows it ranges over, so [first()] succeeds on both aggregate
    statements. *)
Definition file (rows : list TileRow) : DbFile :=
  mkDbFile true tiles_record
    (Some (toInt (sql_min (map zoom_level rows)),
           toInt (sql_max (map zoom_level rows))))
    (fun z =>
       let rs := at_zoom z rows in
       (toInt (sql_min (map tile_column rs)),
        toInt (sql_min (map tile_row rs)),
        toInt (sql_max (map tile_column rs)),
        toInt (sql_max (map tile_row rs))))
    (fun z x y =>
       option_map tile_data
         (find (fun r => (zoom_level r =? z)%Z && (tile_column r =? x)%Z
                         && (tile_row r =? y)%Z) rows)).

End Sqlite.

(** ** Notions the properties are stated with *)

(** [CurrentZoom] lies in [ZoomRange]. *)
Definition zoom_in_range (m : MBTilesMap) : Prop :=
  (range_min (_zooms m) <= _zoom m <= range_max (_zooms m))%Z.

(** The facts about the zoom members every operation keeps. *)
Definition zoom_inv (m : MBTilesMap) : Prop :=
  (0 <= range_min (_zooms m))%Z
  /\ (range_max (_zooms m) < INT_MAX)%Z
  /\ zoom_in_range m.

(** The members of the map other than the connection. *)
Definition derived_state (m : MBTilesMap) :=
  (_fileName m, _zooms m, _bounds m, _zoom m, _deviceRatio m, _tileRatio m,
   _valid m, _errorString m).

(** The number of things [draw] has done so far. *)
Definition events_count (s : DrawState) : nat :=
  List.length (ds_events s).

(** The ordered column descriptor the table is compared with. *)
Definition required_columns : list QSqlField :=
  [ mkField "zoom_level" MT_Int; mkField "tile_column" MT_Int;
    mkField "tile_row" MT_Int; mkField "tile_data" MT_QByteArray ].

(** The table has the four required columns, in the leading positions. *)
Definition has_required_columns (r : QSqlRecord) : Prop :=
  firstn 4 r = required_columns.

(** The reasons for which construction is refused. *)
Definition construction_refused (f : DbFile) : Prop :=
  file_opens f = false
  \/ ~ has_required_columns (file_tiles_record f)
  \/ file_zoom_levels f = None
  \/ exists lo hi, file_zoom_levels f = Some (lo, hi)
                   /\ ((lo < 0)%Z \/ (hi < lo)%Z).

Section Reachability.

Context {O : Osm} {C : Config}.
Variable isValid : RectC -> bool.

(** One call of a public operation that writes to the map. *)
Inductive step : MBTilesMap -> MBTilesMap -> Prop :=
| step_zoomIn : forall m, step m (fst (zoomIn m))
| step_zoomOut : forall m, step m (fst (zoomOut m))
| step_zoomFit : forall m size rect,
    step m (fst (zoomFit isValid m size rect))
| step_load : forall m, step m (load m)
| step_unload : forall m, step m (unload m).

(** The states a map goes through after its construction. *)
Definition reachable (m0 m : MBTilesMap) : Prop :=
  clos_refl_trans_1n MBTilesMap step m0 m.

(** The zoom [zoomFit] selects, in the words of the specification. *)
Definition zoomFit_spec (m : MBTilesMap) (size : QSize) (rect : RectC)
    : int :=
  if isValid rect then
    let projectedWidth :=
      pf_x (ll2m (bottomRight rect)) - pf_x (ll2m (topLeft rect)) in
    let projectedHeight :=
      pf_y (ll2m (bottomRight rect)) - pf_y (ll2m (topLeft rect)) in
    let viewportWidth := IZR (sz_width size) in
    let viewportHeight := IZR (sz_height size) in
    limitZoom m
      (scale2zoom
         (Rmax (projectedWidth / viewportWidth)
               (- projectedHeight / viewportHeight)
          / coordinatesRatio m))
  else range_max (_zooms m).

End Reachability.

(** A viewport that has no point in common with the rectangle [b]; both
    of non-negative size. *)
Definition outside (rect b : QRectF) : Prop :=
  rf_right rect < rf_left b \/ rf_right b < rf_left rect
  \/ rf_bottom rect < rf_top b \/ rf_bottom b < rf_top rect.

(** The whole-world container: one tile at zoom 0. *)
Definition world_rows : list Sqlite.TileRow :=
  [ Sqlite.mkRow 0 0 0 [x89; x50; x4e; x47] ].

Definition no_init : Uninitialised :=
  mkUninit (mkRange 0 0) (mkRectC (mkCoordinates 0 0) (mkCoordinates 0 0))
           0%Z.

(** A container with tiles at zoom levels 2 to 5. *)
Definition pyramid_rows : list Sqlite.TileRow :=
  [ Sqlite.mkRow 2 1 1 [x89]; Sqlite.mkRow 3 2 3 [x89];
    Sqlite.mkRow 5 9 11 [x89] ].


(** Two maps built by the constructor, with the projection and the
    configuration of the specification. *)
Definition world_map : MBTilesMap :=
  @MBTilesMap_new OsmSpec.osm "world.mbtiles" (Sqlite.file world_rows)
                  no_init.

Definition pyramid_map : MBTilesMap :=
  @MBTilesMap_new OsmSpec.osm "pyramid.mbtiles" (Sqlite.file pyramid_rows)
                  no_init.

(** A decoder that takes any data but the empty one for an image. *)
Definition decode (data : QByteArray) : option QPixmap :=
  match data with
  | [] => None
  | _ => Some (mkQPixmap data 1)
  end.

(** A viewport to the right of the whole world at zoom 0. *)
Definition far_viewport : QRectF := mkQRectF 1000 0 100 100.

(** Nothing cached and nothing done yet. *)
Definition fresh : DrawState := mkDrawState [] [].

(** A file whose [tiles] table lacks the column [tile_data]. *)
Definition broken_file : DbFile :=
  mkDbFile true
    [ mkField "zoom_level" MT_Int; mkField "tile_column" MT_Int;
      mkField "tile_row" MT_Int ]
    (Some (0%Z, 3%Z)) (fun _ => (0%Z, 0%Z, 0%Z, 0%Z)) (fun _ _ _ => None).

(** A file that cannot be opened. *)
Definition unreadable_file : DbFile :=
  mkDbFile false [] None (fun _ => (0%Z, 0%Z, 0%Z, 0%Z)) (fun _ _ _ => None).

(** A well-formed table about which the zoom statement reports the
    levels -1 to 4. *)
Definition negative_zoom_file : DbFile :=
  mkDbFile true Sqlite.tiles_record (Some ((-1)%Z, 4%Z))
    (fun _ => (0%Z, 0%Z, 0%Z, 0%Z)) (fun _ _ _ => None).

(** ** Further operations and notions *)

(** [QRectF::center()]. *)
Definition rf_center (r : QRectF) : QPointF :=
  mkQPointF (rf_x r + rf_w r / 2) (rf_y r + rf_h r / 2).

Section Resolution.

Context {O : Osm}.

(** The macro [WGS84_RADIUS] of [common/wgs84.h], which is not among the
    sources. *)
Variable WGS84_RADIUS : R.

(** [resolution], lines 134-140. *)
Definition resolution (m : MBTilesMap) (rect : QRectF) : qreal :=
  let scale := zoom2scale (_zoom m) in
  WGS84_RADIUS * 2 * PI * scale / 360
  * cos (2 * atan (exp (deg2rad (- pf_y (rf_center rect) * scale)))
         - PI / 2).

End Resolution.

(** The four planar coordinates the constructor computes from the tile
    extrema, lines 69-76: [(minX, minY, maxX, maxY)]. *)
Definition planar_extent (f : DbFile) (zooms : Range) : R * R * R * R :=
  let '(c0, r0, c1, r1) := file_extrema f (range_min zooms) in
  let z := range_min zooms in
  (index2mercator (clamp_index z c0) z,
   index2mercator (clamp_index z r0) z,
   index2mercator (add (clamp_index z c1) 1) z,
   index2mercator (add (clamp_index z r1) 1) z).

(** The character [c] occurs in [s]. *)
Fixpoint contains (c : ascii) (s : string) : bool :=
  match s with
  | EmptyString => false
  | String a s' => Ascii.eqb a c || contains c s'
  end.

(** The kinds of things [draw] does. *)
Definition is_cache_find (e : DrawEvent) : bool :=
  match e with EvCacheFind _ => true | _ => false end.

Definition is_tile_data (e : DrawEvent) : bool :=
  match e with EvTileData _ _ => true | _ => false end.

Definition is_cache_insert (e : DrawEvent) : bool :=
  match e with EvCacheInsert _ _ => true | _ => false end.

Definition is_draw_pixmap (e : DrawEvent) : bool :=
  match e with EvDrawPixmap _ _ => true | _ => false end.

Definition count_events (p : DrawEvent -> bool) (s : DrawState) : nat :=
  List.length (filter p (ds_events s)).

Section Blocks.

Context {C : Config}.
Variable loadFromData : QByteArray -> option QPixmap.




End Blocks.

Section DrawGrid.

Context {O : Osm} {C : Config}.

(** The numbers of tile columns and rows [draw] goes through. *)
Definition draw_columns (m : MBTilesMap) (rect : QRectF) : nat :=
  Z.to_nat (Zceil (szf_width (draw_extent m rect) / tileSize m)).

Definition draw_rows (m : MBTilesMap) (rect : QRectF) : nat :=
  Z.to_nat (Zceil (szf_height (draw_extent m rect) / tileSize m)).

End DrawGrid.

(** The messages the constructor can leave in [_errorString]. *)
Definition error_messages (fileName : string) : list string :=
  [ (fileName ++ ": Error opening database file")%string;
    "Invalid table format"%string; "Empty tile set"%string;
    "Invalid zoom levels"%string ].

(** A container with tiles at zoom 0 and at the largest zoom an [int]
    holds. *)
Definition deep_rows : list Sqlite.TileRow :=
  [ Sqlite.mkRow 0 0 0 [x89]; Sqlite.mkRow 2147483647 0 0 [x89] ].

Definition deep_map : MBTilesMap :=
  @MBTilesMap_new OsmSpec.osm "deep.mbtiles" (Sqlite.file deep_rows) no_init.

(** * Properties *)

(** ** Integer arithmetic *)

Lemma wrap_representable : forall z, representable z -> wrap z = z.
Proof.
  unfold representable, INT_MIN, INT_MAX, wrap. intros z Hz.
  rewrite Z.mod_small; lia.
Qed.

Lemma wrap_is_representable : forall z, representable (wrap z).
Proof.
  unfold representable, INT_MIN, INT_MAX, wrap. intro z.
  pose proof (Z.mod_pos_bound (z + 2 ^ 31) (2 ^ 32)). lia.
Qed.

Lemma wrap_congr : forall a b, wrap (a - wrap b) = wrap (a - b).
Proof.
  intros a b. unfold wrap.
  replace (a - ((b + 2 ^ 31) mod 2 ^ 32 - 2 ^ 31) + 2 ^ 31)%Z
    with ((a + 2 ^ 31 + 2 ^ 31) - (b + 2 ^ 31) mod 2 ^ 32)%Z by lia.
  rewrite Zminus_mod_idemp_r. f_equal. f_equal. lia.
Qed.

Lemma wrap_congr_l : forall a b, wrap (wrap a - b) = wrap (a - b).
Proof.
  intros a b. unfold wrap.
  replace ((a + 2 ^ 31) mod 2 ^ 32 - 2 ^ 31 - b + 2 ^ 31)%Z
    with ((a + 2 ^ 31) mod 2 ^ 32 - b)%Z by lia.
  rewrite Zminus_mod_idemp_l. f_equal. f_equal. lia.
Qed.

Lemma pow2_bounds : forall n, (0 <= n <= 30 -> 1 <= 2 ^ n <= 2 ^ 30)%Z.
Proof.
  intros n Hn. split.
  - change 1%Z with (2 ^ 0)%Z. apply Z.pow_le_mono_r; lia.
  - apply Z.pow_le_mono_r; lia.
Qed.

Lemma shl_one : forall n, (0 <= n <= 30)%Z -> shl 1 n = (2 ^ n)%Z.
Proof.
  intros n Hn. unfold shl. rewrite Z.shiftl_1_l.
  apply wrap_representable. pose proof (pow2_bounds n Hn).
  unfold representable, INT_MIN, INT_MAX. lia.
Qed.

Lemma qMin_spec : forall a b, qMin a b = Z.min a b.
Proof. intros a b. unfold qMin. destruct (Z.ltb_spec a b); lia. Qed.

Lemma qMax_spec : forall a b, qMax a b = Z.max a b.
Proof. intros a b. unfold qMax. destruct (Z.ltb_spec a b); lia. Qed.

Lemma qMinR_spec : forall a b, qMinR a b = Rmin a b.
Proof.
  intros a b. unfold qMinR, Rmin.
  destruct (Rlt_dec a b), (Rle_dec a b); lra.
Qed.

Lemma qMaxR_spec : forall a b, qMaxR a b = Rmax a b.
Proof.
  intros a b. unfold qMaxR, Rmax.
  destruct (Rlt_dec a b), (Rle_dec a b); lra.
Qed.

(** ** Clamping of the zoom *)

Section ZoomLemmas.

Context {O : Osm} {C : Config}.

Lemma limitZoom_in_range : forall m z,
  Range_isValid (_zooms m) = true ->
  (range_min (_zooms m) <= limitZoom m z <= range_max (_zooms m))%Z.
Proof.
  intros m z Hv. unfold Range_isValid in Hv. apply Z.leb_le in Hv.
  unfold limitZoom.
  destruct (Z.ltb_spec z (range_min (_zooms m))); [lia|].
  destruct (Z.gtb_spec z (range_max (_zooms m))); lia.
Qed.

Lemma limitZoom_fixes : forall m z,
  (range_min (_zooms m) <= z <= range_max (_zooms m))%Z ->
  limitZoom m z = z.
Proof.
  intros m z Hz. unfold limitZoom.
  destruct (Z.ltb_spec z (range_min (_zooms m))); [lia|].
  destruct (Z.gtb_spec z (range_max (_zooms m))); lia.
Qed.

(** C5. On a zoom range with [min <= max], [limitZoom] is idempotent,
    sends a zoom below the range to [min] and a zoom above it to [max],
    and returns a zoom of the range unchanged. *)
Theorem limitZoom_clamp : forall m z,
  Range_isValid (_zooms m) = true ->
  limitZoom m (limitZoom m z) = limitZoom m z
  /\ ((z < range_min (_zooms m))%Z -> limitZoom m z = range_min (_zooms m))
  /\ ((z > range_max (_zooms m))%Z -> limitZoom m z = range_max (_zooms m))
  /\ ((range_min (_zooms m) <= z <= range_max (_zooms m))%Z ->
      limitZoom m z = z).
Proof.
  intros m z Hv. split; [|split; [|split]].
  - apply limitZoom_fixes. now apply limitZoom_in_range.
  - intro Hlt. unfold limitZoom.
    destruct (Z.ltb_spec z (range_min (_zooms m))); [reflexivity | lia].
  - intro Hgt. unfold Range_isValid in Hv. apply Z.leb_le in Hv.
    unfold limitZoom.
    destruct (Z.ltb_spec z (range_min (_zooms m))); [lia|].
    destruct (Z.gtb_spec z (range_max (_zooms m))); [reflexivity | lia].
  - apply limitZoom_fixes.
Qed.

End ZoomLemmas.

Lemma limitZoom_clamp_witness :
  Range_isValid (_zooms pyramid_map) = true
  /\ limitZoom pyramid_map (limitZoom pyramid_map 9) = limitZoom pyramid_map 9
  /\ ((9 < range_min (_zooms pyramid_map))%Z ->
      limitZoom pyramid_map 9 = range_min (_zooms pyramid_map))
  /\ ((9 > range_max (_zooms pyramid_map))%Z ->
      limitZoom pyramid_map 9 = range_max (_zooms pyramid_map))
  /\ ((range_min (_zooms pyramid_map) <= 9 <= range_max (_zooms pyramid_map))%Z
      -> limitZoom pyramid_map 9 = 9%Z).
Proof.
  split; [reflexivity | apply (limitZoom_clamp pyramid_map 9); reflexivity].
Defined.

(** ** The constructor *)

Section Constructor.

Context {O : Osm} {C : Config}.

(** What a map that came out valid was built from. *)
Lemma new_valid_inv : forall fileName f u,
  _valid (MBTilesMap_new fileName f u) = true ->
  file_opens f = true
  /\ tiles_signature_ok (file_tiles_record f) = true
  /\ exists lo hi,
       file_zoom_levels f = Some (lo, hi)
       /\ (0 <= lo <= hi)%Z
       /\ MBTilesMap_new fileName f u
          = mkMap (mkDb fileName f false) fileName (mkRange lo hi)
                  (compute_bounds f (mkRange lo hi)) hi 1 1 true EmptyString.
Proof.
  intros fileName f u. unfold MBTilesMap_new, db_open, db_close. simpl.
  destruct (file_opens f); simpl; [|discriminate].
  destruct (tiles_signature_ok (file_tiles_record f)); simpl; [|discriminate].
  destruct (file_zoom_levels f) as [[lo hi]|]; simpl; [|discriminate].
  unfold Range_isValid. simpl.
  destruct (Z.ltb_spec lo 0); simpl; [discriminate|].
  destruct (Z.leb_spec lo hi); simpl; [|discriminate].
  intros _. split; [reflexivity|]. split; [reflexivity|].
  exists lo, hi. repeat split; try lia.
Qed.

Lemma new_valid_zoom : forall fileName f u,
  _valid (MBTilesMap_new fileName f u) = true ->
  let m := MBTilesMap_new fileName f u in
  Range_isValid (_zooms m) = true
  /\ (0 <= range_min (_zooms m))%Z
  /\ _zoom m = range_max (_zooms m).
Proof.
  intros fileName f u Hv.
  destruct (new_valid_inv _ _ _ Hv) as (_ & _ & lo & hi & _ & Hr & ->).
  simpl. unfold Range_isValid. simpl. split; [apply Z.leb_le; lia|].
  split; [lia | reflexivity].
Qed.

End Constructor.

(** ** The zoom stays in range *)

Section ZoomInvariant.

Context {O : Osm} {C : Config}.
Variable isValid : RectC -> bool.

Lemma zoomIn_value : forall m,
  zoom_inv m ->
  snd (zoomIn m) = Z.min (_zoom m + 1) (range_max (_zooms m)).
Proof.
  intros m (Hmin & Hmax & Hz). unfold zoom_in_range in Hz.
  unfold zoomIn. simpl. rewrite qMin_spec. unfold add.
  rewrite wrap_representable; [reflexivity|].
  unfold representable, INT_MIN, INT_MAX in *. lia.
Qed.

Lemma zoomOut_value : forall m,
  zoom_inv m ->
  snd (zoomOut m) = Z.max (_zoom m - 1) (range_min (_zooms m)).
Proof.
  intros m (Hmin & Hmax & Hz). unfold zoom_in_range in Hz.
  unfold zoomOut. simpl. rewrite qMax_spec. unfold sub.
  rewrite wrap_representable; [reflexivity|].
  unfold representable, INT_MIN, INT_MAX in *. lia.
Qed.

Lemma zoomIn_keeps : forall m, zoom_inv m -> zoom_inv (fst (zoomIn m)).
Proof.
  intros m Hm. pose proof (zoomIn_value m Hm) as Hv.
  destruct Hm as (Hmin & Hmax & Hz). unfold zoom_in_range in Hz.
  unfold zoom_inv, zoom_in_range. simpl in *. rewrite Hv. lia.
Qed.

Lemma zoomOut_keeps : forall m, zoom_inv m -> zoom_inv (fst (zoomOut m)).
Proof.
  intros m Hm. pose proof (zoomOut_value m Hm) as Hv.
  destruct Hm as (Hmin & Hmax & Hz). unfold zoom_in_range in Hz.
  unfold zoom_inv, zoom_in_range. simpl in *. rewrite Hv. lia.
Qed.

Lemma zoomFit_keeps : forall m size rect,
  zoom_inv m -> zoom_inv (fst (zoomFit isValid m size rect)).
Proof.
  intros m size rect (Hmin & Hmax & Hz). unfold zoom_in_range in Hz.
  unfold zoom_inv, zoom_in_range, zoomFit. simpl.
  split; [assumption|]. split; [assumption|].
  destruct (isValid rect); simpl; [|lia].
  apply (limitZoom_in_range m). unfold Range_isValid. apply Z.leb_le. lia.
Qed.

Lemma step_keeps : forall m m',
  step isValid m m' -> zoom_inv m -> zoom_inv m' /\ _zooms m' = _zooms m.
Proof.
  intros m m' Hs Hm. destruct Hs.
  - split; [now apply zoomIn_keeps | reflexivity].
  - split; [now apply zoomOut_keeps | reflexivity].
  - split; [now apply zoomFit_keeps | reflexivity].
  - split; [exact Hm | reflexivity].
  - split; [exact Hm | reflexivity].
Qed.

Lemma reachable_keeps : forall m0 m,
  reachable isValid m0 m -> zoom_inv m0 ->
  zoom_inv m /\ _zooms m = _zooms m0.
Proof.
  intros m0 m Hr. induction Hr as [m0 | m0 m1 m Hs Hr IH]; intro H0.
  - split; [exact H0 | reflexivity].
  - destruct (step_keeps _ _ Hs H0) as [H1 Hz].
    destruct (IH H1) as [Hm Hz']. split; [exact Hm | congruence].
Qed.

(** C2. On a valid map whose largest zoom is below the largest [int],
    the constructor sets the zoom to [ZoomRange.max], and in every state
    reached by the operations the zoom is in [ZoomRange], as it is after
    one more [zoomIn], [zoomOut] or [zoomFit]; [zoomIn] at
    [ZoomRange.max] returns [ZoomRange.max] and [zoomOut] at
    [ZoomRange.min] returns [ZoomRange.min]. *)
Theorem zoom_stays_in_range : forall fileName f u m,
  let m0 := MBTilesMap_new fileName f u in
  _valid m0 = true ->
  (range_max (_zooms m0) < INT_MAX)%Z ->
  reachable isValid m0 m ->
  _zoom m0 = range_max (_zooms m0)
  /\ _zooms m = _zooms m0
  /\ zoom_in_range m
  /\ (zoom_in_range (fst (zoomIn m)) /\ snd (zoomIn m) = _zoom (fst (zoomIn m)))
  /\ (zoom_in_range (fst (zoomOut m))
      /\ snd (zoomOut m) = _zoom (fst (zoomOut m)))
  /\ (forall size rect,
        zoom_in_range (fst (zoomFit isValid m size rect))
        /\ snd (zoomFit isValid m size rect)
           = _zoom (fst (zoomFit isValid m size rect)))
  /\ (_zoom m = range_max (_zooms m) ->
      snd (zoomIn m) = range_max (_zooms m))
  /\ (_zoom m = range_min (_zooms m) ->
      snd (zoomOut m) = range_min (_zooms m)).
Proof.
  intros fileName f u m m0 Hv Hmax Hr.
  destruct (new_valid_zoom fileName f u Hv) as (Hrv & Hmin & Hz0).
  fold m0 in Hrv, Hmin, Hz0.
  assert (H0 : zoom_inv m0).
  { unfold zoom_inv, zoom_in_range. rewrite Hz0.
    unfold Range_isValid in Hrv. apply Z.leb_le in Hrv. lia. }
  destruct (reachable_keeps m0 m Hr H0) as [Hm Hzs].
  split; [exact Hz0|]. split; [exact Hzs|].
  split; [apply Hm|].
  split; [split; [apply (zoomIn_keeps m Hm) | reflexivity]|].
  split; [split; [apply (zoomOut_keeps m Hm) | reflexivity]|].
  split; [intros size rect; split;
          [apply (zoomFit_keeps m size rect Hm) | reflexivity]|].
  split.
  - intro Heq. rewrite (zoomIn_value m Hm). lia.
  - intro Heq. rewrite (zoomOut_value m Hm). lia.
Qed.

End ZoomInvariant.

Lemma zoom_stays_in_range_witness :
  let m := fst (zoomOut (fst (@zoomFit OsmSpec.osm (fun _ => true)
                                pyramid_map (mkQSize 640 480)
                                (mkRectC (mkCoordinates 14 50)
                                         (mkCoordinates 15 49))))) in
  _valid pyramid_map = true
  /\ (range_max (_zooms pyramid_map) < INT_MAX)%Z
  /\ reachable (O := OsmSpec.osm) (fun _ => true) pyramid_map m
  /\ zoom_in_range m
  /\ zoom_in_range (fst (zoomIn m))
  /\ zoom_in_range (fst (zoomOut m)).
Proof.
  intro m.
  assert (Hv : _valid pyramid_map = true) by reflexivity.
  assert (Hmax : (range_max (_zooms pyramid_map) < INT_MAX)%Z)
    by (vm_compute; reflexivity).
  assert (Hr : reachable (O := OsmSpec.osm) (fun _ => true) pyramid_map m).
  { eapply Relation_Operators.rt1n_trans; [apply step_zoomFit|].
    eapply Relation_Operators.rt1n_trans; [apply step_zoomOut|].
    apply Relation_Operators.rt1n_refl. }
  destruct (zoom_stays_in_range (O := OsmSpec.osm) (fun _ => true)
              "pyramid.mbtiles" (Sqlite.file pyramid_rows) no_init m
              Hv Hmax Hr) as (_ & _ & Hm & (Hin & _) & (Hout & _) & _).
  exact (conj Hv (conj Hmax (conj Hr (conj Hm (conj Hin Hout))))).
Defined.

(** C2, as stated, fails: the map built on a table with zoom levels 0 and
    2147483647 is valid, at its largest zoom, and [zoomIn] then returns
    -2147483648, a zoom that is not in the zoom range. *)
Lemma zoomIn_overflows_at_largest_int :
  _valid deep_map = true
  /\ _zooms deep_map = mkRange 0 INT_MAX
  /\ _zoom deep_map = range_max (_zooms deep_map)
  /\ snd (zoomIn deep_map) = INT_MIN
  /\ ~ zoom_in_range (fst (zoomIn deep_map)).
Proof.
  assert (Hz : snd (zoomIn deep_map) = INT_MIN) by reflexivity.
  split; [reflexivity|]. split; [reflexivity|]. split; [reflexivity|].
  split; [exact Hz|].
  unfold zoom_in_range.
  change (_zoom (fst (zoomIn deep_map))) with (snd (zoomIn deep_map)).
  rewrite Hz.
  change (range_min (_zooms (fst (zoomIn deep_map)))) with 0%Z.
  unfold INT_MIN. lia.
Qed.

(** ** Tile rows *)

Lemma storageRow_twice : forall zoom row,
  representable row -> storageRow zoom (storageRow zoom row) = row.
Proof.
  intros zoom row Hr. unfold storageRow, sub.
  rewrite wrap_congr_l, wrap_congr_l.
  replace (shl 1 zoom - row - 1)%Z with (shl 1 zoom - 1 - row)%Z by lia.
  replace (shl 1 zoom - wrap (shl 1 zoom - 1 - row) - 1)%Z
    with (shl 1 zoom - 1 - wrap (shl 1 zoom - 1 - row))%Z by lia.
  rewrite wrap_congr.
  replace (shl 1 zoom - 1 - (shl 1 zoom - 1 - row))%Z with row by lia.
  now apply wrap_representable.
Qed.

Lemma storageRow_exact : forall zoom row,
  (0 <= zoom <= 30)%Z -> (0 <= row <= 2 ^ zoom - 1)%Z ->
  storageRow zoom row = (2 ^ zoom - row - 1)%Z.
Proof.
  intros zoom row Hz Hr. pose proof (pow2_bounds zoom Hz) as Hp.
  unfold storageRow, sub. rewrite (shl_one zoom Hz).
  rewrite (wrap_representable (2 ^ zoom - row));
    [apply wrap_representable|];
    unfold representable, INT_MIN, INT_MAX; lia.
Qed.

(** C6. For a zoom at which [1 << zoom] is defined and a display row in
    [[0, 2^zoom - 1]], the row [tileData] asks the table for is
    [2^zoom - row - 1], this is the row the statement is run with on an
    open connection, it is again in [[0, 2^zoom - 1]], and converting it
    once more gives the display row back. *)
Theorem storageRow_involutive : forall (m : MBTilesMap) zoom col row,
  (0 <= zoom <= 30)%Z ->
  (0 <= row <= 2 ^ zoom - 1)%Z ->
  db_isOpen (_db m) = true ->
  storageRow zoom row = (2 ^ zoom - row - 1)%Z
  /\ (0 <= storageRow zoom row <= 2 ^ zoom - 1)%Z
  /\ storageRow zoom (storageRow zoom row) = row
  /\ tileData m zoom (mkQPoint col row)
     = match file_tile (db_file (_db m)) zoom col (2 ^ zoom - row - 1)%Z with
       | Some data => data
       | None => []
       end.
Proof.
  intros m zoom col row Hz Hr Ho. pose proof (pow2_bounds zoom Hz) as Hp.
  pose proof (storageRow_exact zoom row Hz Hr) as He.
  split; [exact He|]. split; [rewrite He; lia|]. split.
  - apply storageRow_twice. unfold representable, INT_MIN, INT_MAX. lia.
  - unfold tileData. rewrite Ho. simpl. rewrite He. reflexivity.
Qed.

Lemma storageRow_involutive_witness :
  (0 <= 3 <= 30)%Z /\ (0 <= 4 <= 2 ^ 3 - 1)%Z
  /\ db_isOpen (_db (load pyramid_map)) = true
  /\ storageRow 3 4 = (2 ^ 3 - 4 - 1)%Z
  /\ storageRow 3 (storageRow 3 4) = 4%Z
  /\ tileData (load pyramid_map) 3 (mkQPoint 2 4) = [x89].
Proof.
  assert (Hz : (0 <= 3 <= 30)%Z) by lia.
  assert (Hr : (0 <= 4 <= 2 ^ 3 - 1)%Z) by (simpl; lia).
  assert (Ho : db_isOpen (_db (load pyramid_map)) = true) by reflexivity.
  destruct (storageRow_involutive (load pyramid_map) 3 2 4 Hz Hr Ho)
    as (He & _ & Hi & Ht).
  exact (conj Hz (conj Hr (conj Ho (conj He (conj Hi Ht))))).
Defined.

(** ** Tile indices and longitudes *)

Lemma IZR_pow2_pos : forall n, (0 <= n)%Z -> 0 < IZR (2 ^ n).
Proof.
  intros n Hn. apply IZR_lt. apply Z.pow_pos_nonneg; lia.
Qed.

(** C9. For a zoom at which [1 << zoom] is defined and positive,
    [index2mercator] is [-180 + 360 * index / 2^zoom]. *)
Theorem index2mercator_exact : forall index zoom,
  (0 <= zoom <= 30)%Z ->
  index2mercator index zoom = -180 + 360 * IZR index / IZR (2 ^ zoom).
Proof.
  intros index zoom Hz. unfold index2mercator, rad2deg, to_double.
  rewrite (shl_one zoom Hz).
  assert (Hp : 0 < IZR (2 ^ zoom)) by (apply IZR_pow2_pos; lia).
  pose proof PI_neq0. field. split; lra.
Qed.

Lemma index2mercator_exact_witness :
  (0 <= 2 <= 30)%Z
  /\ index2mercator 3 2 = -180 + 360 * IZR 3 / IZR (2 ^ 2).
Proof.
  split; [lia | apply (index2mercator_exact 3 2); lia].
Defined.

(** ** Opening and closing the connection *)

Section Connection.

Context {O : Osm} {C : Config}.

(** C8. [load] leaves the connection open exactly when the file can be
    opened, [unload] leaves it closed, neither touches the file the
    connection names nor any other member of the map (zoom range, zoom,
    bounds, ratios, validity, error string), and calling either twice is
    the same as calling it once. *)
Theorem load_unload_frame : forall m,
  derived_state (load m) = derived_state m
  /\ derived_state (unload m) = derived_state m
  /\ db_isOpen (_db (load m)) = file_opens (db_file (_db m))
  /\ db_isOpen (_db (unload m)) = false
  /\ db_file (_db (load m)) = db_file (_db m)
  /\ db_file (_db (unload m)) = db_file (_db m)
  /\ load (load m) = load m
  /\ unload (unload m) = unload m.
Proof.
  intro m. unfold derived_state, load, unload, db_open, db_close. simpl.
  repeat split; reflexivity.
Qed.

(** ** The bounds *)

Lemma compute_bounds_latitude : forall f zooms,
  lat (topLeft (compute_bounds f zooms)) <= 85.0511
  /\ -85.0511 <= lat (bottomRight (compute_bounds f zooms)).
Proof.
  intros f zooms. unfold compute_bounds.
  destruct (file_extrema f (range_min zooms)) as [[[c0 r0] c1] r1].
  simpl. rewrite qMinR_spec, qMaxR_spec. split.
  - apply Rmin_r.
  - apply Rmax_r.
Qed.

(** C7. Whatever the table reports as tile extrema, the bounds of a
    valid map have a top-left latitude of at most 85.0511 and a
    bottom-right latitude of at least -85.0511. *)
Theorem bounds_latitude_clamped : forall fileName f u,
  _valid (MBTilesMap_new fileName f u) = true ->
  lat (topLeft (_bounds (MBTilesMap_new fileName f u))) <= 85.0511
  /\ -85.0511 <= lat (bottomRight (_bounds (MBTilesMap_new fileName f u))).
Proof.
  intros fileName f u Hv.
  destruct (new_valid_inv fileName f u Hv) as (_ & _ & lo & hi & _ & _ & ->).
  simpl. apply compute_bounds_latitude.
Qed.

End Connection.

Lemma bounds_latitude_clamped_witness :
  _valid world_map = true
  /\ lat (topLeft (_bounds world_map)) <= 85.0511
  /\ -85.0511 <= lat (bottomRight (_bounds world_map)).
Proof.
  split; [reflexivity|].
  apply (bounds_latitude_clamped (O := OsmSpec.osm) "world.mbtiles"
           (Sqlite.file world_rows) no_init).
  reflexivity.
Defined.

(** ** Refusal and success of the constructor *)

Lemma MetaType_eqb_eq : forall a b, MetaType_eqb a b = true <-> a = b.
Proof. intros a b. destruct a, b; simpl; split; congruence. Qed.

Lemma field_matches : forall (g : QSqlField) n t,
  String.eqb (fld_name g) n = true ->
  MetaType_eqb (fld_type g) t = true ->
  g = mkField n t.
Proof.
  intros [gn gt] n t Hn Ht. simpl in *.
  apply String.eqb_eq in Hn. apply MetaType_eqb_eq in Ht. now subst.
Qed.

(** The test of the constructor is the comparison of the four leading
    columns with the required descriptor. *)
Lemma tiles_signature_ok_iff : forall r,
  tiles_signature_ok r = true <-> has_required_columns r.
Proof.
  intro r. unfold tiles_signature_ok, has_required_columns, required_columns.
  split.
  - intro H. apply negb_true_iff in H.
    repeat (apply orb_false_iff in H; destruct H as [H ?]).
    repeat match goal with
           | X : negb _ = false |- _ => apply negb_false_iff in X
           end.
    destruct r as [|f0 [|f1 [|f2 [|f3 r]]]];
      unfold rec_field in *; simpl in *; try discriminate.
    repeat match goal with
           | X : String.eqb (fld_name ?g) ?n = true,
             Y : MetaType_eqb (fld_type ?g) ?t = true |- _ =>
               rewrite (field_matches g n t X Y); clear X Y
           end.
    reflexivity.
  - intro H.
    destruct r as [|f0 [|f1 [|f2 [|f3 r]]]]; simpl in H; try discriminate.
    injection H as -> -> -> ->. reflexivity.
Qed.

(** A table in which a required column is missing altogether does not
    pass. *)
Lemma missing_column_refused : forall r c,
  In c required_columns -> ~ In c r -> ~ has_required_columns r.
Proof.
  intros r c Hc Hn H. unfold has_required_columns in H. apply Hn.
  rewrite <- (firstn_skipn 4 r). apply in_or_app. left. now rewrite H.
Qed.

Lemma append_not_empty : forall s t : string,
  t <> EmptyString -> (s ++ t)%string <> EmptyString.
Proof.
  intros s t Ht. destruct s; simpl; [exact Ht | discriminate].
Qed.

Section Outcome.

Context {O : Osm} {C : Config}.

(** On the answers of the database: a construction that is refused
    leaves the map invalid with a message. *)
Lemma new_refused : forall fileName f u,
  construction_refused f ->
  _valid (MBTilesMap_new fileName f u) = false
  /\ _errorString (MBTilesMap_new fileName f u) <> EmptyString.
Proof.
  intros fileName f u Href.
  unfold MBTilesMap_new, db_open. simpl.
  destruct (file_opens f) eqn:Hopen; simpl.
  2:{ split; [reflexivity|]. apply append_not_empty. discriminate. }
  destruct (tiles_signature_ok (file_tiles_record f)) eqn:Hsig; simpl.
  2:{ split; [reflexivity | discriminate]. }
  destruct (file_zoom_levels f) as [[lo hi]|] eqn:Hq; simpl.
  2:{ split; [reflexivity | discriminate]. }
  unfold Range_isValid. simpl.
  destruct (Z.ltb_spec lo 0); simpl; [split; [reflexivity | discriminate]|].
  destruct (Z.leb_spec lo hi); simpl; [|split; [reflexivity | discriminate]].
  exfalso. destruct Href as [Hr | [Hr | [Hr | (lo' & hi' & Hr & Hb)]]].
  - congruence.
  - apply Hr. now apply tiles_signature_ok_iff.
  - congruence.
  - assert (lo' = lo /\ hi' = hi) as [-> ->] by (split; congruence). lia.
Qed.

(** On the answers of the database: when none of the reasons holds the
    map is valid, without a message, at its largest zoom. *)
Lemma new_accepted : forall fileName f u,
  ~ construction_refused f ->
  _valid (MBTilesMap_new fileName f u) = true
  /\ _errorString (MBTilesMap_new fileName f u) = EmptyString
  /\ _zoom (MBTilesMap_new fileName f u)
     = range_max (_zooms (MBTilesMap_new fileName f u)).
Proof.
  intros fileName f u Hok. unfold construction_refused in Hok.
  unfold MBTilesMap_new, db_open. simpl.
  destruct (file_opens f) eqn:Hopen; simpl; [|exfalso; apply Hok; now left].
  destruct (tiles_signature_ok (file_tiles_record f)) eqn:Hsig; simpl.
  2:{ exfalso. apply Hok. right. left. intro Hc.
      apply tiles_signature_ok_iff in Hc. congruence. }
  destruct (file_zoom_levels f) as [[lo hi]|] eqn:Hq; simpl.
  2:{ exfalso. apply Hok. right. right. now left. }
  unfold Range_isValid. simpl.
  destruct (Z.ltb_spec lo 0); simpl.
  { exfalso. apply Hok. right. right. right. exists lo, hi. split; [reflexivity|].
    now left. }
  destruct (Z.leb_spec lo hi); simpl.
  2:{ exfalso. apply Hok. right. right. right. exists lo, hi.
      split; [reflexivity|]. now right. }
  repeat split.
Qed.

End Outcome.

(** The aggregate over a table without rows yields the pair of zooms
    (0, 0). *)
Lemma empty_table_zoom_levels :
  file_zoom_levels (Sqlite.file []) = Some (0%Z, 0%Z).
Proof. reflexivity. Qed.

(** C1. The tile set is empty and construction is not refused: on a
    readable file whose [tiles] table has the required columns and no
    row, the zoom statement still has a first row, of two NULLs, the
    zoom range becomes [[0, 0]], and the map comes out valid, with an
    empty error string, at zoom 0. *)
Theorem new_accepts_empty_tile_set :
  let m := @MBTilesMap_new OsmSpec.osm "empty.mbtiles" (Sqlite.file [])
                           no_init in
  _valid m = true
  /\ _errorString m = EmptyString
  /\ _zooms m = mkRange 0 0
  /\ _zoom m = 0%Z.
Proof.
  simpl. repeat split.
Qed.

(** ** Fitting the zoom to a rectangle *)

Section ZoomFit.

Context {O : Osm} {C : Config}.
Variable isValid : RectC -> bool.

(** C3. [zoomFit] stores in [CurrentZoom] and returns the zoom of the
    specification: [ZoomRange.max] for an invalid rectangle, and otherwise
    [limitZoom (scale2zoom (max (projectedWidth / viewportWidth)
    (- projectedHeight / viewportHeight) / coordinatesRatio))], the
    projected width and height being the differences of the projected
    bottom-right and top-left corners; no other member changes. *)
Theorem zoomFit_computes : forall m size rect,
  zoomFit isValid m size rect
  = (set_zoom m (zoomFit_spec isValid m size rect),
     zoomFit_spec isValid m size rect)
  /\ _zoom (fst (zoomFit isValid m size rect))
     = snd (zoomFit isValid m size rect)
  /\ (_db (fst (zoomFit isValid m size rect)),
      derived_state (fst (zoomFit isValid m size rect)))
     = (_db m, derived_state (set_zoom m (zoomFit_spec isValid m size rect))).
Proof.
  intros m size rect.
  assert (Hz : snd (zoomFit isValid m size rect)
               = zoomFit_spec isValid m size rect).
  { unfold zoomFit, zoomFit_spec. simpl.
    destruct (isValid rect); simpl; [|reflexivity].
    rewrite qMaxR_spec. unfold rf_width, rf_height, to_double. simpl.
    replace (- (pf_y (ll2m (bottomRight rect)) - pf_y (ll2m (topLeft rect)))
             / IZR (sz_height size))
      with (- ((pf_y (ll2m (bottomRight rect))
                - pf_y (ll2m (topLeft rect))) / IZR (sz_height size)))
      by (unfold Rdiv; ring).
    reflexivity. }
  assert (He : zoomFit isValid m size rect
               = (set_zoom m (zoomFit_spec isValid m size rect),
                  zoomFit_spec isValid m size rect)).
  { rewrite <- Hz. reflexivity. }
  split; [exact He|]. rewrite He. simpl. split; reflexivity.
Qed.

End ZoomFit.

(** ** The projection of the specification is a pair of inverses *)

Lemma deg2rad_rad2deg : forall x, deg2rad (rad2deg x) = x.
Proof.
  intro x. unfold deg2rad, rad2deg. pose proof PI_neq0. now field.
Qed.

Lemma rad2deg_deg2rad : forall x, rad2deg (deg2rad x) = x.
Proof.
  intro x. unfold deg2rad, rad2deg. pose proof PI_neq0. now field.
Qed.

Lemma mercator_angle : forall d,
  -90 < d < 90 -> 0 < PI / 4 + deg2rad d / 2 < PI / 2.
Proof.
  intros d Hd. unfold deg2rad. pose proof PI_RGT_0 as Hpi.
  split; nra.
Qed.

Lemma OsmSpec_m2ll_ll2m : forall c,
  -90 < lat c < 90 -> OsmSpec.m2ll (OsmSpec.ll2m c) = c.
Proof.
  intros [lo la] Hl. simpl in Hl. unfold OsmSpec.m2ll, OsmSpec.ll2m. simpl.
  pose proof (mercator_angle la Hl) as Ha.
  rewrite deg2rad_rad2deg.
  rewrite exp_ln by (apply tan_gt_0; lra).
  rewrite atan_tan by lra.
  replace (2 * (PI / 4 + deg2rad la / 2) - PI / 2) with (deg2rad la) by lra.
  now rewrite rad2deg_deg2rad.
Qed.

Lemma OsmSpec_ll2m_m2ll : forall p, OsmSpec.ll2m (OsmSpec.m2ll p) = p.
Proof.
  intros [x y]. unfold OsmSpec.m2ll, OsmSpec.ll2m. simpl.
  rewrite deg2rad_rad2deg.
  replace (PI / 4 + (2 * atan (exp (deg2rad y)) - PI / 2) / 2)
    with (atan (exp (deg2rad y))) by lra.
  now rewrite tan_atan, ln_exp, rad2deg_deg2rad.
Qed.

(** ** Display coordinates *)

Section Display.

Context {O : Osm} {C : Config}.

Lemma coordinatesRatio_pos : forall m,
  0 < _tileRatio m -> 0 < coordinatesRatio m.
Proof.
  intros m Ht. unfold coordinatesRatio.
  destruct (Rlt_dec 1 (_deviceRatio m)); [|lra].
  apply Rdiv_lt_0_compat; lra.
Qed.

(** C10. When [ll2m] and [m2ll] invert each other (the former on the
    latitudes up to 85.0511 degrees), the scale of the current zoom is
    not zero and the tile ratio is positive, [xy2ll] after [ll2xy] is the
    identity on the coordinates of latitude up to 85.0511 degrees, and
    [ll2xy] after [xy2ll] is the identity on all display points. *)
Theorem ll2xy_xy2ll_inverse : forall m,
  (forall c, Rabs (lat c) <= 85.0511 -> m2ll (ll2m c) = c) ->
  (forall p, ll2m (m2ll p) = p) ->
  zoom2scale (_zoom m) <> 0 ->
  0 < _tileRatio m ->
  (forall c, Rabs (lat c) <= 85.0511 -> xy2ll m (ll2xy m c) = c)
  /\ (forall p, ll2xy m (xy2ll m p) = p).
Proof.
  intros m Hml Hlm Hs Ht.
  pose proof (coordinatesRatio_pos m Ht) as Hr.
  split.
  - intros c Hc. unfold xy2ll, ll2xy, pf_mul, pf_div. simpl.
    rewrite <- (Hml c Hc) at 3. f_equal.
    destruct (ll2m c) as [x y]. simpl. f_equal; field; split; lra.
  - intros [x y]. unfold xy2ll, ll2xy, pf_mul, pf_div. simpl.
    rewrite Hlm. simpl. f_equal; field; split; lra.
Qed.

End Display.

Lemma latitude_within_quarter_turn : forall c,
  Rabs (lat c) <= 85.0511 -> -90 < lat c < 90.
Proof.
  intros c Hc. unfold Rabs in Hc. destruct (Rcase_abs (lat c)); lra.
Qed.

Lemma world_map_unfolded :
  world_map
  = mkMap (mkDb "world.mbtiles" (Sqlite.file world_rows) false)
          "world.mbtiles" (mkRange 0 0)
          (compute_bounds (O := OsmSpec.osm) (Sqlite.file world_rows)
                          (mkRange 0 0))
          0 1 1 true EmptyString.
Proof. reflexivity. Qed.

Lemma world_map_scale : @zoom2scale OsmSpec.osm (_zoom world_map) = 360 / 256.
Proof.
  rewrite world_map_unfolded. simpl. unfold OsmSpec.zoom2scale.
  change (256 * 2 ^ 0)%Z with 256%Z. reflexivity.
Qed.

Lemma ll2xy_xy2ll_inverse_witness :
  (forall c, Rabs (lat c) <= 85.0511 -> OsmSpec.m2ll (OsmSpec.ll2m c) = c)
  /\ (forall p, OsmSpec.ll2m (OsmSpec.m2ll p) = p)
  /\ @zoom2scale OsmSpec.osm (_zoom world_map) <> 0
  /\ 0 < _tileRatio world_map
  /\ Rabs (lat (mkCoordinates 14.42 50.09)) <= 85.0511
  /\ xy2ll (O := OsmSpec.osm) world_map
       (ll2xy (O := OsmSpec.osm) world_map (mkCoordinates 14.42 50.09))
     = mkCoordinates 14.42 50.09
  /\ ll2xy (O := OsmSpec.osm) world_map
       (xy2ll (O := OsmSpec.osm) world_map (mkQPointF 10 (-20)))
     = mkQPointF 10 (-20).
Proof.
  assert (Hml : forall c, Rabs (lat c) <= 85.0511 ->
                          OsmSpec.m2ll (OsmSpec.ll2m c) = c).
  { intros c Hc. apply OsmSpec_m2ll_ll2m.
    now apply latitude_within_quarter_turn. }
  assert (Hs : @zoom2scale OsmSpec.osm (_zoom world_map) <> 0).
  { rewrite world_map_scale. lra. }
  assert (Ht : 0 < _tileRatio world_map).
  { rewrite world_map_unfolded. simpl. lra. }
  assert (Hc : Rabs (lat (mkCoordinates 14.42 50.09)) <= 85.0511).
  { simpl. rewrite Rabs_pos_eq; lra. }
  destruct (ll2xy_xy2ll_inverse (O := OsmSpec.osm) world_map Hml
              OsmSpec_ll2m_m2ll Hs Ht) as [H1 H2].
  exact (conj Hml (conj OsmSpec_ll2m_m2ll (conj Hs (conj Ht
          (conj Hc (conj (H1 _ Hc) (H2 _))))))).
Defined.

(** ** The tile loop of [draw] *)

Lemma Zceil_IZR : forall z, Zceil (IZR z) = z.
Proof. intro z. unfold Zceil. rewrite ZfloorNZ. lia. Qed.

Lemma Zceil_nonpos : forall x, x <= 0 -> (Zceil x <= 0)%Z.
Proof.
  intros x Hx. pose proof (Zceil_bound x) as [Hl _].
  assert (H : (Zceil x < 1)%Z) by (apply lt_IZR; lra). lia.
Qed.

Lemma Zceil_pos : forall x, 0 < x -> (0 < Zceil x)%Z.
Proof.
  intros x Hx. pose proof (Zceil_bound x) as [_ Hu].
  apply lt_IZR. lra.
Qed.

Lemma Zceil_unit : forall x, 0 < x <= 1 -> Zceil x = 1%Z.
Proof.
  intros x Hx. pose proof (Zceil_bound x) as [Hl Hu].
  assert (H1 : (0 < Zceil x)%Z) by (apply lt_IZR; lra).
  assert (H2 : (Zceil x < 2)%Z) by (apply lt_IZR; lra). lia.
Qed.

Lemma for_loop_none : forall (S : Type) bound (body : int -> S -> S) s,
  bound <= 0 -> for_loop bound body s = s.
Proof.
  intros S bound body s Hb. unfold for_loop.
  pose proof (Zceil_nonpos bound Hb).
  replace (Z.to_nat (Zceil bound)) with 0%nat by lia. reflexivity.
Qed.

Lemma for_loop_once : forall (S : Type) bound (body : int -> S -> S) s,
  0 < bound <= 1 -> for_loop bound body s = body 0%Z s.
Proof.
  intros S bound body s Hb. unfold for_loop.
  rewrite (Zceil_unit bound Hb). reflexivity.
Qed.

Lemma for_loop_identity : forall (S : Type) bound (body : int -> S -> S) s,
  (forall i x, body i x = x) -> for_loop bound body s = s.
Proof.
  intros S bound body s Hid. unfold for_loop.
  generalize (seq 0 (Z.to_nat (Zceil bound))). intro l.
  induction l as [|i l IH]; simpl; [reflexivity|]. now rewrite Hid.
Qed.

Lemma fold_grows : forall (body : int -> DrawState -> DrawState) l s,
  (forall i x, (events_count x <= events_count (body i x))%nat) ->
  (events_count s
   <= events_count (fold_left (fun acc i => body (Z.of_nat i) acc) l s))%nat.
Proof.
  intros body l. induction l as [|i l IH]; intros s Hb; simpl; [lia|].
  specialize (IH (body (Z.of_nat i) s) Hb). specialize (Hb (Z.of_nat i) s).
  lia.
Qed.

Lemma for_loop_grows : forall bound (body : int -> DrawState -> DrawState) s,
  (forall i x, (events_count x < events_count (body i x))%nat) ->
  0 < bound ->
  (events_count s < events_count (for_loop bound body s))%nat.
Proof.
  intros bound body s Hb Hpos. unfold for_loop.
  pose proof (Zceil_pos bound Hpos) as Hc.
  destruct (Z.to_nat (Zceil bound)) as [|n] eqn:Hn; [lia|].
  simpl. pose proof (Hb 0%Z s) as H0.
  pose proof (fold_grows body (seq 1 n) (body 0%Z s)) as Hrest.
  assert (Hle : forall i x,
             (events_count x <= events_count (body i x))%nat).
  { intros i x. specialize (Hb i x). lia. }
  specialize (Hrest Hle). simpl in Hrest. lia.
Qed.

Section DrawLemmas.

Context {O : Osm} {C : Config}.
Variable loadFromData : QByteArray -> option QPixmap.

Lemma emit_count : forall e s,
  events_count (emit e s) = Datatypes.S (events_count s).
Proof.
  intros e s. unfold events_count, emit. simpl.
  rewrite List.length_app. simpl. lia.
Qed.

(** Every iteration starts with a look-up in the cache. *)
Lemma draw_tile_grows : forall m tile tl b i j s,
  (events_count s
   < events_count (draw_tile loadFromData m tile tl b i j s))%nat.
Proof.
  intros m tile tl b i j s. unfold draw_tile.
  set (key := tile_key m _).
  cbn [ds_cache emit].
  destruct (cache_find key (ds_cache s)) as [pm|].
  - rewrite emit_count, emit_count. lia.
  - destruct (loadFromData _) as [pm|].
    + rewrite emit_count, emit_count. unfold events_count. simpl.
      rewrite !List.length_app. simpl. lia.
    + rewrite emit_count, emit_count. lia.
Qed.

(** With a positive extent in both directions the loop body runs. *)
Lemma draw_some : forall m rect s,
  0 < tileSize m ->
  0 < szf_width (draw_extent m rect) ->
  0 < szf_height (draw_extent m rect) ->
  (events_count s < events_count (draw loadFromData m rect s))%nat.
Proof.
  intros m rect s Hts Hw Hh. unfold draw.
  set (sz := draw_extent m rect) in *.
  assert (Hcw : 0 < ceil (szf_width sz / tileSize m)).
  { unfold ceil. apply IZR_lt. apply Zceil_pos.
    apply Rdiv_lt_0_compat; lra. }
  assert (Hch : 0 < ceil (szf_height sz / tileSize m)).
  { unfold ceil. apply IZR_lt. apply Zceil_pos.
    apply Rdiv_lt_0_compat; lra. }
  apply for_loop_grows; [|exact Hcw].
  intros i x. apply for_loop_grows; [|exact Hch].
  intros j y. apply draw_tile_grows.
Qed.

(** Without extent in one direction the loop body does not run. *)
Lemma draw_none : forall m rect s,
  0 < tileSize m ->
  szf_width (draw_extent m rect) <= 0
  \/ szf_height (draw_extent m rect) <= 0 ->
  draw loadFromData m rect s = s.
Proof.
  intros m rect s Hts Hext. unfold draw.
  assert (Hdiv : forall x, x <= 0 -> ceil (x / tileSize m) <= 0).
  { intros x Hx. unfold ceil.
    apply (IZR_le _ 0). apply Zceil_nonpos.
    pose proof (Rinv_0_lt_compat _ Hts). unfold Rdiv. nra. }
  destruct Hext as [Hw | Hh].
  - apply for_loop_none. now apply Hdiv.
  - apply for_loop_identity. intros i x.
    apply for_loop_none. now apply Hdiv.
Qed.

(** C4, as the code has it. With a positive tile size, [draw] leaves its
    collaborators untouched (no cache look-up, no tile fetched, nothing
    painted) exactly when the extent to cover, the smaller of the
    viewport's reach beyond the tile-aligned origin and of the size of the
    projected bounds, is not positive in width or in height; where the
    viewport lies with respect to the bounds plays no part. *)
Theorem draw_nothing_iff : forall m rect s,
  0 < tileSize m ->
  (draw loadFromData m rect s = s
   <-> (szf_width (draw_extent m rect) <= 0
        \/ szf_height (draw_extent m rect) <= 0)).
Proof.
  intros m rect s Hts. split.
  - intro Heq.
    destruct (Rle_dec (szf_width (draw_extent m rect)) 0) as [Hw|Hw];
      [now left|].
    destruct (Rle_dec (szf_height (draw_extent m rect)) 0) as [Hh|Hh];
      [now right|].
    exfalso. apply (Nat.lt_irrefl (events_count s)).
    rewrite <- Heq at 2. apply draw_some; lra.
  - now apply draw_none.
Qed.

End DrawLemmas.

(** ** The whole-world map and a viewport beside it *)
Lemma OsmSpec_ll2m_north : forall c,
  0 < lat c < 90 -> 0 < pf_y (OsmSpec.ll2m c).
Proof.
  intros [lo la] Hl. simpl in *. unfold rad2deg.
  assert (Ha : PI / 4 < PI / 4 + deg2rad la / 2 < PI / 2).
  { unfold deg2rad. pose proof PI_RGT_0. split; nra. }
  assert (Ht : 1 < tan (PI / 4 + deg2rad la / 2)).
  { rewrite <- tan_PI4. apply tan_increasing; lra. }
  assert (Hn : 0 < ln (tan (PI / 4 + deg2rad la / 2))).
  { rewrite <- ln_1. apply ln_increasing; lra. }
  pose proof PI_RGT_0. apply Rdiv_lt_0_compat; lra.
Qed.

Lemma OsmSpec_ll2m_south : forall c,
  -90 < lat c < 0 -> pf_y (OsmSpec.ll2m c) < 0.
Proof.
  intros [lo la] Hl. simpl in *. unfold rad2deg.
  assert (Ha : 0 < PI / 4 + deg2rad la / 2 < PI / 4).
  { unfold deg2rad. pose proof PI_RGT_0. split; nra. }
  pose proof PI_RGT_0 as Hpi.
  assert (Ht : 0 < tan (PI / 4 + deg2rad la / 2) < 1).
  { split; [apply tan_gt_0; lra|].
    rewrite <- tan_PI4. apply tan_increasing; lra. }
  assert (Hn : ln (tan (PI / 4 + deg2rad la / 2)) < 0).
  { rewrite <- ln_1. apply ln_increasing; lra. }
  assert (H : 0 < - (180 * ln (tan (PI / 4 + deg2rad la / 2)) / PI)); [|lra].
  replace (- (180 * ln (tan (PI / 4 + deg2rad la / 2)) / PI))
    with (180 * - ln (tan (PI / 4 + deg2rad la / 2)) / PI)
    by (unfold Rdiv; ring).
  apply Rdiv_lt_0_compat; lra.
Qed.

Lemma OsmSpec_m2ll_north : forall p,
  0 < pf_y p -> 0 < lat (OsmSpec.m2ll p) < 90.
Proof.
  intros [x y] Hy. simpl in *. unfold rad2deg.
  pose proof PI_RGT_0 as Hpi.
  assert (Hd : 0 < deg2rad y).
  { unfold deg2rad. apply Rdiv_lt_0_compat; nra. }
  assert (He : 1 < exp (deg2rad y)).
  { rewrite <- exp_0. now apply exp_increasing. }
  assert (Ha : PI / 4 < atan (exp (deg2rad y)) < PI / 2).
  { split; [rewrite <- atan_1; now apply atan_increasing|].
    apply atan_bound. }
  split.
  - apply Rdiv_lt_0_compat; lra.
  - apply (Rmult_lt_reg_r PI); [exact Hpi|].
    unfold Rdiv. rewrite Rmult_assoc, Rinv_l by lra. lra.
Qed.

Lemma OsmSpec_m2ll_south : forall p,
  pf_y p < 0 -> -90 < lat (OsmSpec.m2ll p) < 0.
Proof.
  intros [x y] Hy. simpl in *. unfold rad2deg.
  pose proof PI_RGT_0 as Hpi.
  assert (Hd : deg2rad y < 0).
  { unfold deg2rad. unfold Rdiv. nra. }
  assert (He : 0 < exp (deg2rad y) < 1).
  { split; [apply exp_pos|]. rewrite <- exp_0. now apply exp_increasing. }
  assert (Ha : 0 < atan (exp (deg2rad y)) < PI / 4).
  { split; [rewrite <- atan_0; apply atan_increasing; lra|].
    rewrite <- atan_1. apply atan_increasing; lra. }
  split.
  - apply (Rmult_lt_reg_r PI); [exact Hpi|].
    unfold Rdiv. rewrite Rmult_assoc, Rinv_l by lra. lra.
  - apply (Rmult_lt_reg_r PI); [exact Hpi|].
    unfold Rdiv. rewrite Rmult_assoc, Rinv_l by lra. lra.
Qed.

Lemma index2mercator_west : index2mercator 0 0 = -180.
Proof.
  unfold index2mercator, rad2deg, to_double. change (shl 1 0) with 1%Z.
  pose proof PI_neq0. now field.
Qed.

Lemma index2mercator_east : index2mercator 1 0 = 180.
Proof.
  unfold index2mercator, rad2deg, to_double. change (shl 1 0) with 1%Z.
  pose proof PI_neq0. now field.
Qed.

Lemma world_bounds :
  exists north south,
    _bounds world_map
    = mkRectC (mkCoordinates (-180) north) (mkCoordinates 180 south)
    /\ 0 < north <= 85.0511 /\ -85.0511 <= south < 0.
Proof.
  rewrite world_map_unfolded. cbn [_bounds]. unfold compute_bounds.
  change (file_extrema (Sqlite.file world_rows) (range_min (mkRange 0 0)))
    with (0%Z, 0%Z, 0%Z, 0%Z).
  cbn beta iota zeta. cbn [range_min].
  change (clamp_index 0 0) with 0%Z. change (add 0 1) with 1%Z.
  rewrite index2mercator_west, index2mercator_east.
  cbn [m2ll OsmSpec.osm].
  pose proof (OsmSpec_m2ll_north (mkQPointF (-180) 180)) as Hn.
  pose proof (OsmSpec_m2ll_south (mkQPointF 180 (-180))) as Hs.
  cbn [pf_y] in Hn, Hs.
  specialize (Hn ltac:(lra)). specialize (Hs ltac:(lra)).
  eexists. eexists. split; [reflexivity|].
  rewrite qMinR_spec, qMaxR_spec. unfold Rmin, Rmax.
  destruct (Rle_dec _ _), (Rle_dec _ _); lra.
Qed.

Section WorldMap.

#[local] Existing Instance OsmSpec.osm.
#[local] Existing Instance OsmSpec.config.

Lemma world_ratio : coordinatesRatio (load world_map) = 1.
Proof.
  unfold coordinatesRatio. rewrite world_map_unfolded. cbn [load _deviceRatio].
  destruct (Rlt_dec 1 1); [lra | reflexivity].
Qed.

Lemma world_tileSize : tileSize (load world_map) = 256.
Proof.
  unfold tileSize. rewrite world_ratio. cbn [TILE_SIZE OsmSpec.config].
  unfold to_double. lra.
Qed.

Lemma world_scale : zoom2scale (_zoom (load world_map)) = 360 / 256.
Proof. exact world_map_scale. Qed.

Lemma world_ll2xy : forall c,
  ll2xy (load world_map) c
  = mkQPointF (lon c * 256 / 360) (- pf_y (OsmSpec.ll2m c) * 256 / 360).
Proof.
  intro c. unfold ll2xy. rewrite world_scale, world_ratio.
  unfold pf_div. cbn [pf_x pf_y ll2m OsmSpec.osm OsmSpec.ll2m].
  f_equal; field.
Qed.

Lemma world_projected_bounds :
  exists top height,
    bounds (load world_map) = mkQRectF (-128) top 256 height /\ 0 < height.
Proof.
  destruct world_bounds as (north & south & Hb & Hn & Hs).
  unfold bounds. rewrite !world_ll2xy.
  change (_bounds (load world_map)) with (_bounds world_map). rewrite Hb.
  cbn [topLeft bottomRight lon]. unfold QRectF_of_corners. cbn [pf_x pf_y].
  eexists. eexists. split.
  - f_equal; first [reflexivity | lra].
  - pose proof (OsmSpec_ll2m_north (mkCoordinates (-180) north)) as H1.
    pose proof (OsmSpec_ll2m_south (mkCoordinates 180 south)) as H2.
    cbn [lat] in H1, H2.
    specialize (H1 ltac:(lra)). specialize (H2 ltac:(lra)). lra.
Qed.

Lemma far_viewport_outside : outside far_viewport (bounds (load world_map)).
Proof.
  destruct world_projected_bounds as (top & height & -> & _).
  unfold outside, far_viewport, rf_right, rf_left, rf_bottom, rf_top.
  cbn [rf_x rf_y rf_w rf_h]. right. left. lra.
Qed.

Lemma far_viewport_origin :
  draw_origin (load world_map) far_viewport = mkQPointF 768 0.
Proof.
  unfold draw_origin. rewrite world_tileSize.
  unfold far_viewport, rf_left, rf_top, floor. cbn [rf_x rf_y].
  rewrite (Zfloor_eq 3 (1000 / 256)) by lra.
  rewrite (Zfloor_eq 0 (0 / 256)) by lra.
  f_equal; lra.
Qed.

Lemma far_viewport_extent :
  exists h, draw_extent (load world_map) far_viewport = mkQSizeF 256 h
            /\ 0 < h <= 100.
Proof.
  destruct world_projected_bounds as (top & height & Hb & Hh).
  unfold draw_extent. rewrite far_viewport_origin, Hb.
  unfold far_viewport, rf_right, rf_bottom, rf_width, rf_height.
  cbn [rf_x rf_y rf_w rf_h pf_x pf_y].
  eexists. split.
  - f_equal. rewrite qMinR_spec. unfold Rmin.
    destruct (Rle_dec _ _); lra.
  - rewrite qMinR_spec. unfold Rmin. destruct (Rle_dec _ _); lra.
Qed.

Lemma far_viewport_tile :
  mercator2tile
    (pf_mul (mkQPointF (pf_x (rf_topLeft far_viewport)
                        * zoom2scale (_zoom (load world_map)))
                       (- pf_y (rf_topLeft far_viewport)
                        * zoom2scale (_zoom (load world_map))))
            (coordinatesRatio (load world_map)))
    (_zoom (load world_map))
  = mkQPoint 4 0.
Proof.
  rewrite world_scale, world_ratio.
  change (_zoom (load world_map)) with 0%Z.
  cbn [mercator2tile OsmSpec.osm]. unfold OsmSpec.mercator2tile, pf_mul.
  cbn [pf_x pf_y rf_topLeft far_viewport rf_x rf_y].
  change (2 ^ 0)%Z with 1%Z.
  f_equal; apply Zfloor_eq; lra.
Qed.

Lemma ceil_unit : forall x, 0 < x <= 1 -> ceil x = 1.
Proof. intros x Hx. unfold ceil. now rewrite (Zceil_unit x Hx). Qed.

Lemma draw_single : forall ld m rect s,
  0 < szf_width (draw_extent m rect) / tileSize m <= 1 ->
  0 < szf_height (draw_extent m rect) / tileSize m <= 1 ->
  draw ld m rect s
  = draw_tile ld m
      (mercator2tile
         (pf_mul (mkQPointF (pf_x (rf_topLeft rect) * zoom2scale (_zoom m))
                            (- pf_y (rf_topLeft rect)
                             * zoom2scale (_zoom m)))
                 (coordinatesRatio m))
         (_zoom m))
      (draw_origin m rect) (bounds m) 0 0 s.
Proof.
  intros ld m rect s Hw Hh. unfold draw.
  rewrite (ceil_unit _ Hw), (ceil_unit _ Hh).
  rewrite for_loop_once by lra. rewrite for_loop_once by lra. reflexivity.
Qed.

(** C4, as stated, fails: the viewport [far_viewport] lies to the right
    of the projected bounds of the whole-world map, and [draw] still runs
    its loop body once, looking the tile (4, 0) up in the cache and asking
    the table for it. *)
Lemma draw_outside_bounds_fetches :
  outside far_viewport (bounds (load world_map))
  /\ ds_events (draw decode (load world_map) far_viewport fresh)
     = [ EvCacheFind "world.mbtiles-0_4_0"; EvTileData 0 (mkQPoint 4 0) ].
Proof.
  split; [exact far_viewport_outside|].
  destruct far_viewport_extent as (h & He & Hh).
  rewrite draw_single; rewrite ?He, ?world_tileSize; cbn [szf_width szf_height];
    try lra.
  rewrite far_viewport_tile.
  lazy. reflexivity.
Qed.

Lemma draw_nothing_iff_witness :
  0 < tileSize (load world_map)
  /\ (draw decode (load world_map) (mkQRectF 0 0 0 0) fresh = fresh
      <-> (szf_width (draw_extent (load world_map) (mkQRectF 0 0 0 0)) <= 0
           \/ szf_height (draw_extent (load world_map) (mkQRectF 0 0 0 0))
              <= 0)).
Proof.
  assert (Hts : 0 < tileSize (load world_map))
    by (rewrite world_tileSize; lra).
  exact (conj Hts (draw_nothing_iff decode (load world_map)
                     (mkQRectF 0 0 0 0) fresh Hts)).
Defined.

(** An empty viewport is one for which nothing is enumerated. *)
Lemma draw_empty_viewport :
  draw decode (load world_map) (mkQRectF 0 0 0 0) fresh = fresh.
Proof.
  apply draw_none; [rewrite world_tileSize; lra|]. left.
  destruct world_projected_bounds as (top & height & Hb & Hh).
  unfold draw_extent, draw_origin. rewrite Hb, world_tileSize.
  unfold rf_right, rf_left, rf_width, floor. cbn [rf_x rf_w szf_width pf_x].
  rewrite (Zfloor_eq 0 (0 / 256)) by lra.
  rewrite qMinR_spec. unfold Rmin. destruct (Rle_dec _ _); lra.
Qed.

End WorldMap.

(** ** Worked examples *)

Example pyramid_zoom_range :
  _zooms pyramid_map = mkRange 2 5 /\ _zoom pyramid_map = 5%Z.
Proof. split; reflexivity. Qed.

Example pyramid_zoomIn_at_max : snd (zoomIn pyramid_map) = 5%Z.
Proof. reflexivity. Qed.

Example pyramid_zoomOut_to_min :
  snd (zoomOut (fst (zoomOut (fst (zoomOut (fst (zoomOut pyramid_map)))))))
  = 2%Z.
Proof. reflexivity. Qed.

Example pyramid_limitZoom :
  limitZoom pyramid_map 0 = 2%Z /\ limitZoom pyramid_map 3 = 3%Z
  /\ limitZoom pyramid_map 40 = 5%Z.
Proof. repeat split. Qed.

Example pyramid_zoomFit_invalid :
  snd (@zoomFit OsmSpec.osm (fun _ => false) pyramid_map (mkQSize 640 480)
         (mkRectC (mkCoordinates 0 0) (mkCoordinates 0 0)))
  = 5%Z.
Proof. reflexivity. Qed.

Example storageRow_top_of_zoom_3 : storageRow 3 0 = 7%Z.
Proof. reflexivity. Qed.

Example world_map_closed_after_construction :
  db_isOpen (_db world_map) = false
  /\ db_isOpen (_db (load world_map)) = true
  /\ db_isOpen (_db (unload (load world_map))) = false.
Proof. repeat split. Qed.

Example world_tile_found :
  tileData (load world_map) 0 (mkQPoint 0 0) = [x89; x50; x4e; x47]
  /\ tileData world_map 0 (mkQPoint 0 0) = [].
Proof. split; reflexivity. Qed.

Example missing_tile_data_column :
  let m := @MBTilesMap_new OsmSpec.osm "broken.mbtiles" broken_file no_init in
  _valid m = false /\ _errorString m = "Invalid table format"%string.
Proof. split; reflexivity. Qed.

Example file_not_opened :
  let m := @MBTilesMap_new OsmSpec.osm "gone.mbtiles" unreadable_file
                           no_init in
  _valid m = false
  /\ _errorString m = "gone.mbtiles: Error opening database file"%string.
Proof. split; reflexivity. Qed.

Example negative_minimum_zoom :
  let m := @MBTilesMap_new OsmSpec.osm "odd.mbtiles" negative_zoom_file
                           no_init in
  _valid m = false /\ _errorString m = "Invalid zoom levels"%string.
Proof. split; reflexivity. Qed.

(** * Further properties *)

(** ** What the constructor leaves behind *)

Section ConstructorMore.

Context {O : Osm} {C : Config}.

(** The four ways out of the constructor that leave the map invalid, and
    the one that leaves it valid. *)
Lemma new_cases : forall fileName f u,
  let m := MBTilesMap_new fileName f u in
  (_valid m = true /\ _errorString m = EmptyString
   /\ db_isOpen (_db m) = false /\ file_opens f = true)
  \/ (_valid m = false /\ In (_errorString m) (error_messages fileName)
      /\ _errorString m <> EmptyString
      /\ db_isOpen (_db m) = file_opens f
      /\ _zoom m = init_zoom u /\ _bounds m = init_bounds u
      /\ _deviceRatio m = 1 /\ _tileRatio m = 1).
Proof.
  intros fileName f u. unfold MBTilesMap_new, db_open, error_messages.
  cbn [_db db_name db_file fst snd].
  destruct (file_opens f) eqn:Hopen; cbn [negb].
  2:{ right. cbn. repeat split; auto.
      apply append_not_empty. discriminate. }
  destruct (tiles_signature_ok (file_tiles_record f)); cbn [negb].
  2:{ right. cbn. repeat split; auto. discriminate. }
  destruct (file_zoom_levels f) as [[lo hi]|].
  2:{ right. cbn. repeat split; auto. discriminate. }
  destruct ((range_min (mkRange lo hi) <? 0)%Z
            || negb (Range_isValid (mkRange lo hi))).
  - right. cbn. repeat split; auto 6. discriminate.
  - left. cbn. repeat split.
Qed.

(** X1. A constructed map is valid exactly when its error string is
    empty, and exactly when none of the reasons of refusal holds; the
    error string of an invalid map is one of the four messages of the
    constructor. *)
Theorem valid_iff_no_error : forall fileName f u,
  let m := MBTilesMap_new fileName f u in
  (_valid m = true <-> _errorString m = EmptyString)
  /\ (_valid m = true <-> ~ construction_refused f)
  /\ (_valid m = false -> In (_errorString m) (error_messages fileName)).
Proof.
  intros fileName f u m. subst m.
  destruct (new_cases fileName f u)
    as [(Hv & He & _) | (Hv & Hin & Hne & _)].
  - split; [tauto|]. split; [|congruence].
    split; [|tauto]. intros _ Href.
    destruct (new_refused fileName f u Href). congruence.
  - split; [split; [congruence | tauto]|].
    split; [|tauto]. split; [congruence|].
    intro Hok. destruct (new_accepted fileName f u Hok). congruence.
Qed.

(** X2. The constructor closes the connection only on success: after
    construction the connection is open exactly when the file could be
    opened and the map was then refused. *)
Theorem connection_after_construction : forall fileName f u,
  let m := MBTilesMap_new fileName f u in
  db_isOpen (_db m) = file_opens f && negb (_valid m)
  /\ db_file (_db m) = f /\ db_name (_db m) = fileName
  /\ _fileName m = fileName.
Proof.
  intros fileName f u m. subst m.
  unfold MBTilesMap_new, db_open.
  cbn [_db db_name db_file fst snd].
  destruct (file_opens f) eqn:Hopen; cbn [negb]; [|repeat split].
  destruct (tiles_signature_ok (file_tiles_record f)); cbn [negb];
    [|repeat split].
  destruct (file_zoom_levels f) as [[lo hi]|]; [|repeat split].
  destruct ((range_min (mkRange lo hi) <? 0)%Z
            || negb (Range_isValid (mkRange lo hi))); repeat split.
Qed.

(** X3. A valid map owes nothing to the content its members had before
    the constructor ran, whereas an invalid map still carries the
    indeterminate zoom and the default bounds, with both ratios at 1. *)
Theorem uninitialised_members : forall fileName f u u',
  let m := MBTilesMap_new fileName f u in
  (_valid m = true -> MBTilesMap_new fileName f u' = m)
  /\ (_valid m = false ->
      _zoom m = init_zoom u /\ _bounds m = init_bounds u
      /\ _deviceRatio m = 1 /\ _tileRatio m = 1).
Proof.
  intros fileName f u u' m. subst m. split.
  - intro Hv.
    destruct (new_valid_inv fileName f u Hv) as (Ho & Hs & lo & hi & Hq & Hr & ->).
    unfold MBTilesMap_new, db_open, db_close.
    cbn [_db db_name db_file fst snd]. rewrite Ho, Hs, Hq. cbn [negb].
    unfold Range_isValid. cbn [range_min range_max].
    destruct (Z.ltb_spec lo 0); [lia|].
    destruct (Z.leb_spec lo hi); [|lia]. reflexivity.
  - intro Hv.
    destruct (new_cases fileName f u) as [(Hv' & _) | (_ & _ & _ & _ & H)];
      [congruence | exact H].
Qed.

End ConstructorMore.

Lemma valid_iff_no_error_witness :
  let m := @MBTilesMap_new OsmSpec.osm "broken.mbtiles" broken_file no_init in
  _valid m = false /\ In (_errorString m) (error_messages "broken.mbtiles").
Proof.
  intro m.
  assert (Hv : _valid m = false) by reflexivity.
  destruct (valid_iff_no_error (O := OsmSpec.osm) "broken.mbtiles"
              broken_file no_init) as (_ & _ & H).
  exact (conj Hv (H Hv)).
Defined.

Lemma uninitialised_members_witness :
  let m := @MBTilesMap_new OsmSpec.osm "odd.mbtiles" negative_zoom_file
             (mkUninit (mkRange 0 0)
                       (mkRectC (mkCoordinates 0 0) (mkCoordinates 0 0))
                       (-77)%Z) in
  _valid m = false /\ _zoom m = (-77)%Z.
Proof.
  intro m.
  assert (Hv : _valid m = false) by reflexivity.
  destruct (uninitialised_members (O := OsmSpec.osm) "odd.mbtiles"
              negative_zoom_file
              (mkUninit (mkRange 0 0)
                        (mkRectC (mkCoordinates 0 0) (mkCoordinates 0 0))
                        (-77)%Z) no_init) as [_ H].
  destruct (H Hv) as (Hz & _). exact (conj Hv Hz).
Defined.

(** ** What the operations keep and how they compose *)

Section OperationsMore.

Context {O : Osm} {C : Config}.
Variable isValid : RectC -> bool.

Lemma step_frame : forall m m',
  step isValid m m' ->
  (_fileName m', _zooms m', _bounds m', _deviceRatio m', _tileRatio m',
   _valid m', _errorString m', db_file (_db m'), db_name (_db m'))
  = (_fileName m, _zooms m, _bounds m, _deviceRatio m, _tileRatio m,
     _valid m, _errorString m, db_file (_db m), db_name (_db m)).
Proof. intros m m' Hs. destruct Hs; reflexivity. Qed.

(** X4. Whatever sequence of [zoomIn], [zoomOut], [zoomFit], [load] and
    [unload] is applied, the file name, the zoom range, the bounds, the
    two ratios, the validity flag, the error string and the file behind
    the connection stay as they were: only the zoom and the open state of
    the connection ever change, and an invalid map never becomes valid. *)
Theorem operations_frame : forall m0 m,
  reachable isValid m0 m ->
  (_fileName m, _zooms m, _bounds m, _deviceRatio m, _tileRatio m,
   _valid m, _errorString m, db_file (_db m), db_name (_db m))
  = (_fileName m0, _zooms m0, _bounds m0, _deviceRatio m0, _tileRatio m0,
     _valid m0, _errorString m0, db_file (_db m0), db_name (_db m0)).
Proof.
  intros m0 m Hr. induction Hr as [m0 | m0 m1 m Hs Hr IH].
  - reflexivity.
  - rewrite IH. now apply step_frame.
Qed.

Lemma set_zoom_same : forall m, set_zoom m (_zoom m) = m.
Proof. intros []. reflexivity. Qed.

Lemma set_zoom_twice : forall m z z',
  set_zoom (set_zoom m z) z' = set_zoom m z'.
Proof. reflexivity. Qed.

(** X5. On a map whose zoom is in range (and whose largest zoom is below
    the largest [int]), [zoomOut] undoes [zoomIn] unless the zoom was at
    its maximum, and [zoomIn] undoes [zoomOut] unless it was at its
    minimum: the map is back in the state it was in. *)
Theorem zoomIn_zoomOut_undo : forall m,
  zoom_inv m ->
  ((_zoom m < range_max (_zooms m))%Z ->
   zoomOut (fst (zoomIn m)) = (m, _zoom m))
  /\ ((range_min (_zooms m) < _zoom m)%Z ->
      zoomIn (fst (zoomOut m)) = (m, _zoom m)).
Proof.
  intros m Hm. pose proof (zoomIn_keeps m Hm) as Hi.
  pose proof (zoomOut_keeps m Hm) as Ho.
  pose proof (zoomIn_value m Hm) as Hvi.
  pose proof (zoomOut_value m Hm) as Hvo.
  pose proof (zoomOut_value _ Hi) as Hvoi.
  pose proof (zoomIn_value _ Ho) as Hvio.
  destruct Hm as (Hmin & Hmax & Hz). unfold zoom_in_range in Hz.
  split; intro Hlt.
  - assert (Hv : snd (zoomOut (fst (zoomIn m))) = _zoom m).
    { rewrite Hvoi. change (_zoom (fst (zoomIn m))) with (snd (zoomIn m)).
      change (_zooms (fst (zoomIn m))) with (_zooms m). rewrite Hvi. lia. }
    change (zoomOut (fst (zoomIn m)))
      with (set_zoom m (snd (zoomOut (fst (zoomIn m)))),
            snd (zoomOut (fst (zoomIn m)))).
    rewrite Hv, set_zoom_same. reflexivity.
  - assert (Hv : snd (zoomIn (fst (zoomOut m))) = _zoom m).
    { rewrite Hvio. change (_zoom (fst (zoomOut m))) with (snd (zoomOut m)).
      change (_zooms (fst (zoomOut m))) with (_zooms m). rewrite Hvo. lia. }
    change (zoomIn (fst (zoomOut m)))
      with (set_zoom m (snd (zoomIn (fst (zoomOut m)))),
            snd (zoomIn (fst (zoomOut m)))).
    rewrite Hv, set_zoom_same. reflexivity.
Qed.

(** X6. On a zoom range with [min <= max], [limitZoom] is monotone. *)
Theorem limitZoom_monotone : forall m z z',
  Range_isValid (_zooms m) = true ->
  (z <= z')%Z ->
  (limitZoom m z <= limitZoom m z')%Z.
Proof.
  intros m z z' Hv Hz. unfold Range_isValid in Hv. apply Z.leb_le in Hv.
  unfold limitZoom.
  destruct (Z.ltb_spec z (range_min (_zooms m)));
    destruct (Z.ltb_spec z' (range_min (_zooms m)));
    destruct (Z.gtb_spec z (range_max (_zooms m)));
    destruct (Z.gtb_spec z' (range_max (_zooms m))); lia.
Qed.

(** X7. With a tile ratio other than zero, the image ratio is the
    coordinates ratio times the tile ratio, the coordinates ratio is not
    zero when the tile ratio is positive, and the tile size times the
    coordinates ratio is [TILE_SIZE]. *)
Theorem ratios_relation : forall m,
  0 < _tileRatio m ->
  imageRatio m = coordinatesRatio m * _tileRatio m
  /\ 0 < coordinatesRatio m
  /\ tileSize m * coordinatesRatio m = IZR TILE_SIZE.
Proof.
  intros m Ht. pose proof (coordinatesRatio_pos m Ht) as Hr.
  split; [|split; [exact Hr|]].
  - unfold imageRatio, coordinatesRatio.
    destruct (Rlt_dec 1 (_deviceRatio m)); [|lra].
    unfold Rdiv. rewrite Rmult_assoc, Rinv_l; lra.
  - unfold tileSize, to_double, Rdiv. rewrite Rmult_assoc, Rinv_l; lra.
Qed.

End OperationsMore.

Lemma operations_frame_witness :
  let m := fst (zoomOut (load pyramid_map)) in
  reachable (O := OsmSpec.osm) (fun _ => true) pyramid_map m
  /\ _valid m = _valid pyramid_map
  /\ _zooms m = _zooms pyramid_map.
Proof.
  intro m.
  assert (Hr : reachable (O := OsmSpec.osm) (fun _ => true) pyramid_map m).
  { eapply Relation_Operators.rt1n_trans; [apply step_load|].
    eapply Relation_Operators.rt1n_trans; [apply step_zoomOut|].
    apply Relation_Operators.rt1n_refl. }
  pose proof (operations_frame (O := OsmSpec.osm) (fun _ => true)
                pyramid_map m Hr) as H.
  split; [exact Hr|]. split; congruence.
Defined.

Lemma pyramid_zoom_inv : zoom_inv pyramid_map.
Proof.
  unfold zoom_inv, zoom_in_range.
  change (_zooms pyramid_map) with (mkRange 2 5).
  change (_zoom pyramid_map) with 5%Z.
  unfold INT_MAX. cbn [range_min range_max]. lia.
Qed.

Lemma zoomIn_zoomOut_undo_witness :
  zoom_inv pyramid_map
  /\ (range_min (_zooms pyramid_map) < _zoom pyramid_map)%Z
  /\ zoomIn (fst (zoomOut pyramid_map)) = (pyramid_map, _zoom pyramid_map).
Proof.
  assert (Hlt : (range_min (_zooms pyramid_map) < _zoom pyramid_map)%Z)
    by (change (2 < 5)%Z; lia).
  destruct (zoomIn_zoomOut_undo pyramid_map pyramid_zoom_inv) as [_ H].
  exact (conj pyramid_zoom_inv (conj Hlt (H Hlt))).
Defined.

Lemma limitZoom_monotone_witness :
  Range_isValid (_zooms pyramid_map) = true /\ (1 <= 4)%Z
  /\ (limitZoom pyramid_map 1 <= limitZoom pyramid_map 4)%Z.
Proof.
  assert (Hv : Range_isValid (_zooms pyramid_map) = true) by reflexivity.
  assert (Hz : (1 <= 4)%Z) by lia.
  exact (conj Hv (conj Hz (limitZoom_monotone pyramid_map 1 4 Hv Hz))).
Defined.

Lemma ratios_relation_witness :
  0 < _tileRatio world_map
  /\ @tileSize OsmSpec.config world_map * coordinatesRatio world_map
     = IZR (@TILE_SIZE OsmSpec.config).
Proof.
  assert (Ht : 0 < _tileRatio world_map).
  { rewrite world_map_unfolded. cbn [_tileRatio]. lra. }
  destruct (ratios_relation (C := OsmSpec.config) world_map Ht)
    as (_ & _ & H).
  exact (conj Ht H).
Defined.

(** ** The planar box of the bounds *)

Lemma clamp_index_value : forall zoom v,
  (0 <= zoom <= 30)%Z ->
  clamp_index zoom v = Z.min (2 ^ zoom - 1) (Z.max 0 v).
Proof.
  intros zoom v Hz. pose proof (pow2_bounds zoom Hz) as Hp.
  unfold clamp_index. rewrite qMin_spec, qMax_spec. unfold sub.
  rewrite (shl_one zoom Hz). rewrite wrap_representable; [reflexivity|].
  unfold representable, INT_MIN, INT_MAX. lia.
Qed.

(** X8. For a zoom at which [1 << zoom] is defined, the index the
    constructor keeps of a reported tile column or row lies in
    [[0, 2^zoom - 1]] whatever was reported, is the reported one when
    that lies in the interval, and grows with the reported one. *)
Theorem clamp_index_range : forall zoom v v',
  (0 <= zoom <= 30)%Z ->
  (0 <= clamp_index zoom v <= 2 ^ zoom - 1)%Z
  /\ ((0 <= v <= 2 ^ zoom - 1)%Z -> clamp_index zoom v = v)
  /\ ((v <= v')%Z -> (clamp_index zoom v <= clamp_index zoom v')%Z).
Proof.
  intros zoom v v' Hz. pose proof (pow2_bounds zoom Hz) as Hp.
  rewrite !(clamp_index_value zoom) by exact Hz. lia.
Qed.

Lemma clamp_index_range_witness :
  (0 <= 3 <= 30)%Z
  /\ (0 <= clamp_index 3 (-5) <= 2 ^ 3 - 1)%Z
  /\ (0 <= clamp_index 3 900 <= 2 ^ 3 - 1)%Z.
Proof.
  assert (Hz : (0 <= 3 <= 30)%Z) by lia.
  destruct (clamp_index_range 3 (-5) 900 Hz) as (H1 & _).
  destruct (clamp_index_range 3 900 900 Hz) as (H2 & _).
  exact (conj Hz (conj H1 H2)).
Defined.

Lemma index2mercator_value : forall index zoom,
  (0 <= zoom <= 30)%Z ->
  index2mercator index zoom = -180 + 360 * IZR index / IZR (2 ^ zoom).
Proof.
  intros index zoom Hz. unfold index2mercator, rad2deg, to_double.
  rewrite (shl_one zoom Hz).
  assert (Hp : 0 < IZR (2 ^ zoom)) by (apply IZR_pow2_pos; lia).
  pose proof PI_neq0. field. split; lra.
Qed.

Lemma index2mercator_lt : forall zoom i j,
  (0 <= zoom <= 30)%Z -> (i < j)%Z ->
  index2mercator i zoom < index2mercator j zoom.
Proof.
  intros zoom i j Hz Hij.
  assert (Hp : 0 < IZR (2 ^ zoom)) by (apply IZR_pow2_pos; lia).
  rewrite !index2mercator_value by exact Hz. apply IZR_lt in Hij.
  assert (IZR i / IZR (2 ^ zoom) < IZR j / IZR (2 ^ zoom)).
  { unfold Rdiv. apply Rmult_lt_compat_r; [|exact Hij].
    now apply Rinv_0_lt_compat. }
  unfold Rdiv in *. lra.
Qed.

Lemma index2mercator_first : forall zoom,
  (0 <= zoom <= 30)%Z -> index2mercator 0 zoom = -180.
Proof.
  intros zoom Hz. rewrite index2mercator_value by exact Hz.
  unfold Rdiv. lra.
Qed.

Lemma index2mercator_last : forall zoom,
  (0 <= zoom <= 30)%Z -> index2mercator (2 ^ zoom) zoom = 180.
Proof.
  intros zoom Hz.
  assert (Hp : 0 < IZR (2 ^ zoom)) by (apply IZR_pow2_pos; lia).
  rewrite index2mercator_value by exact Hz. field. lra.
Qed.

Lemma index2mercator_inside : forall zoom i,
  (0 <= zoom <= 30)%Z -> (0 <= i <= 2 ^ zoom)%Z ->
  -180 <= index2mercator i zoom <= 180.
Proof.
  intros zoom i Hz [Hl Hu]. split.
  - destruct (Z.eq_dec i 0) as [->|Hne].
    + rewrite index2mercator_first by exact Hz. lra.
    + rewrite <- (index2mercator_first zoom Hz). left.
      apply index2mercator_lt; [exact Hz | lia].
  - destruct (Z.eq_dec i (2 ^ zoom)) as [->|Hne].
    + rewrite index2mercator_last by exact Hz. lra.
    + rewrite <- (index2mercator_last zoom Hz). left.
      apply index2mercator_lt; [exact Hz | lia].
Qed.

(** X9. For a zoom at which [1 << zoom] is defined, [index2mercator]
    grows strictly with the index, sends index 0 to -180 and index
    [2^zoom] to 180, and so sends the indices from 0 to [2^zoom] into
    [[-180, 180]]. *)
Theorem index2mercator_monotone : forall zoom i j,
  (0 <= zoom <= 30)%Z ->
  ((i < j)%Z -> index2mercator i zoom < index2mercator j zoom)
  /\ index2mercator 0 zoom = -180
  /\ index2mercator (2 ^ zoom) zoom = 180
  /\ ((0 <= i <= 2 ^ zoom)%Z -> -180 <= index2mercator i zoom <= 180).
Proof.
  intros zoom i j Hz.
  split; [now apply index2mercator_lt|].
  split; [now apply index2mercator_first|].
  split; [now apply index2mercator_last|].
  now apply index2mercator_inside.
Qed.

Lemma index2mercator_monotone_witness :
  (0 <= 4 <= 30)%Z /\ (3 < 9)%Z
  /\ index2mercator 3 4 < index2mercator 9 4.
Proof.
  assert (Hz : (0 <= 4 <= 30)%Z) by lia.
  assert (Hij : (3 < 9)%Z) by lia.
  destruct (index2mercator_monotone 4 3 9 Hz) as (H & _).
  exact (conj Hz (conj Hij (H Hij))).
Defined.

Section PlanarBox.

Context {O : Osm}.

Lemma add_one_clamped : forall zoom v,
  (0 <= zoom <= 30)%Z ->
  add (clamp_index zoom v) 1 = (clamp_index zoom v + 1)%Z.
Proof.
  intros zoom v Hz. pose proof (pow2_bounds zoom Hz) as Hp.
  unfold add. apply wrap_representable.
  rewrite (clamp_index_value zoom v Hz).
  unfold representable, INT_MIN, INT_MAX. lia.
Qed.

(** X10. When the smallest zoom is one at which [1 << zoom] is defined,
    the box the constructor hands to [m2ll] lies inside the square
    [[-180, 180] x [-180, 180]] whatever extrema the table reports, the
    bounds are what [m2ll] makes of its corners with the latitudes cut at
    85.0511 degrees, and the box has a positive width (height) as soon as
    the reported smallest column (row) is not above the largest. *)
Theorem planar_extent_in_world : forall f zooms,
  (0 <= range_min zooms <= 30)%Z ->
  let '(minX, minY, maxX, maxY) := planar_extent f zooms in
  let '(c0, r0, c1, r1) := file_extrema f (range_min zooms) in
  compute_bounds f zooms
  = mkRectC
      (set_lat (m2ll (mkQPointF minX maxY))
               (qMinR (lat (m2ll (mkQPointF minX maxY))) 85.0511))
      (set_lat (m2ll (mkQPointF maxX minY))
               (qMaxR (lat (m2ll (mkQPointF maxX minY))) (-85.0511)))
  /\ (-180 <= minX < 180 /\ -180 < maxX <= 180)
  /\ (-180 <= minY < 180 /\ -180 < maxY <= 180)
  /\ ((c0 <= c1)%Z -> minX < maxX)
  /\ ((r0 <= r1)%Z -> minY < maxY).
Proof.
  intros f zooms Hz. unfold planar_extent, compute_bounds.
  destruct (file_extrema f (range_min zooms)) as [[[c0 r0] c1] r1].
  set (z := range_min zooms) in *.
  rewrite !(add_one_clamped z) by exact Hz.
  pose proof (pow2_bounds z Hz) as Hp.
  assert (Hcl : forall v, (0 <= clamp_index z v <= 2 ^ z - 1)%Z).
  { intro v. rewrite (clamp_index_value z v Hz). lia. }
  assert (Hlow : forall v, -180 <= index2mercator (clamp_index z v) z < 180).
  { intro v. specialize (Hcl v). split.
    - apply index2mercator_inside; [exact Hz | lia].
    - rewrite <- (index2mercator_last z Hz).
      apply index2mercator_lt; [exact Hz | lia]. }
  assert (Hhigh : forall v,
            -180 < index2mercator (clamp_index z v + 1) z <= 180).
  { intro v. specialize (Hcl v). split.
    - rewrite <- (index2mercator_first z Hz).
      apply index2mercator_lt; [exact Hz | lia].
    - apply index2mercator_inside; [exact Hz | lia]. }
  assert (Hord : forall v v', (v <= v')%Z ->
            index2mercator (clamp_index z v) z
            < index2mercator (clamp_index z v' + 1) z).
  { intros v v' Hv. apply index2mercator_lt; [exact Hz|].
    rewrite !(clamp_index_value z) by exact Hz. lia. }
  split; [reflexivity|].
  split; [split; [apply Hlow | apply Hhigh]|].
  split; [split; [apply Hlow | apply Hhigh]|].
  split; apply Hord.
Qed.

End PlanarBox.

Lemma planar_extent_in_world_witness :
  (0 <= range_min (mkRange 2 5) <= 30)%Z
  /\ let '(minX, minY, maxX, maxY) :=
        planar_extent (Sqlite.file pyramid_rows) (mkRange 2 5) in
     -180 <= minX < 180 /\ -180 < maxX <= 180 /\ minX < maxX.
Proof.
  assert (Hz : (0 <= range_min (mkRange 2 5) <= 30)%Z) by (simpl; lia).
  split; [exact Hz|].
  pose proof (planar_extent_in_world (O := OsmSpec.osm)
                (Sqlite.file pyramid_rows) (mkRange 2 5) Hz) as H.
  destruct (planar_extent (Sqlite.file pyramid_rows) (mkRange 2 5))
    as [[[minX minY] maxX] maxY].
  change (file_extrema (Sqlite.file pyramid_rows) (range_min (mkRange 2 5)))
    with (1%Z, 1%Z, 1%Z, 1%Z) in H.
  destruct H as (_ & (Hx1 & Hx2) & _ & Hw & _).
  split; [exact Hx1|]. split; [exact Hx2|]. apply Hw. lia.
Defined.

(** ** The ground resolution *)

Section ResolutionLemmas.

Context {O : Osm}.
Variable WGS84_RADIUS : R.

(** The angle whose cosine corrects the scale: a latitude, strictly
    between the poles. *)
Lemma gudermann_bounds : forall t,
  - (PI / 2) < 2 * atan (exp t) - PI / 2 < PI / 2.
Proof.
  intro t. pose proof (atan_bound (exp t)) as [_ Hu].
  assert (H0 : 0 < atan (exp t)).
  { rewrite <- atan_0. apply atan_increasing. apply exp_pos. }
  lra.
Qed.

Lemma gudermann_odd : forall t,
  2 * atan (exp (- t)) - PI / 2 = - (2 * atan (exp t) - PI / 2).
Proof.
  intro t. rewrite exp_Ropp. rewrite atan_inv by apply exp_pos. lra.
Qed.

Lemma deg2rad_opp : forall d, deg2rad (- d) = - deg2rad d.
Proof. intro d. unfold deg2rad, Rdiv. ring. Qed.

(** X11. With a positive radius and a positive scale at the current
    zoom, the resolution is positive and at most the resolution at the
    equator, [WGS84_RADIUS * 2 * PI * scale / 360], which it equals for a
    viewport centred on the line [y = 0]. *)
Theorem resolution_bounds : forall m rect,
  0 < WGS84_RADIUS ->
  0 < zoom2scale (_zoom m) ->
  0 < resolution WGS84_RADIUS m rect
      <= WGS84_RADIUS * 2 * PI * zoom2scale (_zoom m) / 360
  /\ (pf_y (rf_center rect) = 0 ->
      resolution WGS84_RADIUS m rect
      = WGS84_RADIUS * 2 * PI * zoom2scale (_zoom m) / 360).
Proof.
  intros m rect Hr Hs. unfold resolution. cbv zeta.
  set (a := 2 * atan (exp (deg2rad (- pf_y (rf_center rect)
                                    * zoom2scale (_zoom m)))) - PI / 2).
  set (k := WGS84_RADIUS * 2 * PI * zoom2scale (_zoom m) / 360).
  assert (Hk : 0 < k).
  { unfold k. pose proof PI_RGT_0.
    apply Rdiv_lt_0_compat; [|lra].
    apply Rmult_lt_0_compat; [|exact Hs].
    apply Rmult_lt_0_compat; [|assumption].
    apply Rmult_lt_0_compat; [exact Hr | lra]. }
  assert (Hc : 0 < cos a <= 1).
  { split; [|apply COS_bound].
    apply cos_gt_0; apply (gudermann_bounds _). }
  split.
  - split; [apply Rmult_lt_0_compat; [exact Hk | apply Hc]|].
    rewrite <- (Rmult_1_r k) at 2. apply Rmult_le_compat_l; [lra | apply Hc].
  - intro Hy. unfold a. rewrite Hy.
    replace (deg2rad (- 0 * zoom2scale (_zoom m))) with 0
      by (unfold deg2rad, Rdiv; ring).
    rewrite exp_0, atan_1.
    replace (2 * (PI / 4) - PI / 2) with 0 by lra.
    rewrite cos_0. lra.
Qed.

(** X12. In exact real arithmetic (the [double]s read as real numbers),
    the resolution is the same for two viewports whose centres are mirror
    images of each other across the line [y = 0]. *)
Theorem resolution_symmetric : forall m rect rect',
  pf_y (rf_center rect') = - pf_y (rf_center rect) ->
  resolution WGS84_RADIUS m rect' = resolution WGS84_RADIUS m rect.
Proof.
  intros m rect rect' Hy. unfold resolution. rewrite Hy. f_equal.
  replace (- - pf_y (rf_center rect) * zoom2scale (_zoom m))
    with (- (- pf_y (rf_center rect) * zoom2scale (_zoom m))) by ring.
  rewrite deg2rad_opp, gudermann_odd. apply cos_neg.
Qed.

End ResolutionLemmas.

Lemma resolution_bounds_witness :
  0 < 6378137 /\ 0 < @zoom2scale OsmSpec.osm (_zoom world_map)
  /\ 0 < resolution (O := OsmSpec.osm) 6378137 world_map
           (mkQRectF 0 10 256 100).
Proof.
  assert (Hr : 0 < 6378137) by lra.
  assert (Hs : 0 < @zoom2scale OsmSpec.osm (_zoom world_map))
    by (rewrite world_map_scale; lra).
  destruct (resolution_bounds (O := OsmSpec.osm) 6378137 world_map
              (mkQRectF 0 10 256 100) Hr Hs) as ((H & _) & _).
  exact (conj Hr (conj Hs H)).
Defined.

Lemma resolution_symmetric_witness :
  pf_y (rf_center (mkQRectF 0 (-110) 256 100))
  = - pf_y (rf_center (mkQRectF 0 10 256 100))
  /\ resolution (O := OsmSpec.osm) 6378137 world_map
       (mkQRectF 0 (-110) 256 100)
     = resolution (O := OsmSpec.osm) 6378137 world_map
         (mkQRectF 0 10 256 100).
Proof.
  assert (Hy : pf_y (rf_center (mkQRectF 0 (-110) 256 100))
               = - pf_y (rf_center (mkQRectF 0 10 256 100))).
  { unfold rf_center. cbn [pf_y rf_y rf_h]. lra. }
  exact (conj Hy (resolution_symmetric (O := OsmSpec.osm) 6378137 world_map
                    _ _ Hy)).
Defined.

(** ** What [draw] does to the cache and to the painter *)

Lemma count_emit : forall p e s,
  count_events p (emit e s)
  = (count_events p s + (if p e then 1 else 0))%nat.
Proof.
  intros p e s. unfold count_events, emit. cbn [ds_events].
  rewrite filter_app, List.length_app. cbn [filter].
  destruct (p e); reflexivity.
Qed.

Lemma count_with_cache : forall p c s,
  count_events p (mkDrawState c (ds_events s)) = count_events p s.
Proof. reflexivity. Qed.

(** A loop whose body keeps [I] and adds [k] to a count adds [k] for
    every turn. *)
Lemma for_loop_counts :
  forall (I : DrawState -> Prop) (cnt : DrawState -> nat) k bound
         (body : int -> DrawState -> DrawState) s,
  (forall i x, I x -> I (body i x) /\ cnt (body i x) = (cnt x + k)%nat) ->
  I s ->
  I (for_loop bound body s)
  /\ cnt (for_loop bound body s)
     = (cnt s + Z.to_nat (Zceil bound) * k)%nat.
Proof.
  intros I cnt k bound body s Hb. unfold for_loop.
  assert (Hl : forall l x, I x ->
            I (fold_left (fun acc i => body (Z.of_nat i) acc) l x)
            /\ cnt (fold_left (fun acc i => body (Z.of_nat i) acc) l x)
               = (cnt x + List.length l * k)%nat).
  { induction l as [|i l IH]; intros x Hx; cbn [fold_left List.length].
    - split; [exact Hx | lia].
    - destruct (Hb (Z.of_nat i) x Hx) as [Hi Hc].
      destruct (IH _ Hi) as [Hi' Hc']. split; [exact Hi'|].
      rewrite Hc', Hc. lia. }
  intros Hs. destruct (Hl (seq 0 (Z.to_nat (Zceil bound))) s Hs) as [H1 H2].
  split; [exact H1|]. now rewrite H2, length_seq.
Qed.

(** A loop whose body keeps a preorder between the state before and the
    state after keeps it too. *)
Lemma for_loop_preorder :
  forall (R : DrawState -> DrawState -> Prop) bound
         (body : int -> DrawState -> DrawState) s,
  (forall x, R x x) ->
  (forall x y z, R x y -> R y z -> R x z) ->
  (forall i x, R x (body i x)) ->
  R s (for_loop bound body s).
Proof.
  intros R bound body s Hrefl Htrans Hb. unfold for_loop.
  generalize (seq 0 (Z.to_nat (Zceil bound))) as l. intro l. revert s.
  induction l as [|i l IH]; intro s; cbn [fold_left].
  - apply Hrefl.
  - eapply Htrans; [apply Hb | apply IH].
Qed.

Lemma Zceil_ceil : forall x, Zceil (ceil x) = Zceil x.
Proof. intro x. unfold ceil. apply Zceil_IZR. Qed.

Section DrawMore.

Context {O : Osm} {C : Config}.
Variable loadFromData : QByteArray -> option QPixmap.

Ltac count_events_tac :=
  unfold count_events, emit; cbn [ds_events ds_cache];
  rewrite ?filter_app, ?List.length_app;
  cbn [filter is_cache_find is_draw_pixmap is_tile_data is_cache_insert
       List.length]; lia.

Lemma draw_tile_counts : forall m tile tl b i j s,
  count_events is_cache_find (draw_tile loadFromData m tile tl b i j s)
  = (count_events is_cache_find s + 1)%nat
  /\ (count_events is_draw_pixmap (draw_tile loadFromData m tile tl b i j s)
      <= count_events is_draw_pixmap s + 1)%nat.
Proof.
  intros m tile tl b i j s. unfold draw_tile.
  set (key := tile_key m _). cbn [ds_cache emit].
  destruct (cache_find key (ds_cache s)) as [pm|].
  - split; count_events_tac.
  - destruct (loadFromData _) as [pm|]; split; count_events_tac.
Qed.

(** The two nested loops of [draw]: a count the body raises by [k]
    while keeping [I] is raised by [k] for every tile of the grid. *)
Lemma draw_loop_counts :
  forall (I : DrawState -> Prop) (cnt : DrawState -> nat) k m rect s,
  (forall tile tl b i j x,
     I x ->
     I (draw_tile loadFromData m tile tl b i j x)
     /\ cnt (draw_tile loadFromData m tile tl b i j x) = (cnt x + k)%nat) ->
  I s ->
  I (draw loadFromData m rect s)
  /\ cnt (draw loadFromData m rect s)
     = (cnt s + draw_columns m rect * draw_rows m rect * k)%nat.
Proof.
  intros I cnt k m rect s Hb Hs. unfold draw, draw_columns, draw_rows.
  set (nc := Z.to_nat (Zceil (szf_width (draw_extent m rect) / tileSize m))).
  set (nr := Z.to_nat (Zceil (szf_height (draw_extent m rect) / tileSize m))).
  set (tile := mercator2tile _ _).
  match goal with
  | |- I (for_loop ?bo ?body s) /\ _ =>
      destruct (for_loop_counts I cnt (nr * k) bo body s) as [H1 H2]
  end; [|exact Hs|].
  - intros i x Hx.
    match goal with
    | |- I (for_loop ?bi ?body x) /\ _ =>
        destruct (for_loop_counts I cnt k bi body x) as [H1 H2]
    end; [|exact Hx|].
    + intros j y Hy. apply Hb. exact Hy.
    + split; [exact H1|]. rewrite H2, Zceil_ceil. reflexivity.
  - split; [exact H1|]. rewrite H2, Zceil_ceil. fold nc. lia.
Qed.

Lemma draw_loop_preorder :
  forall (R : DrawState -> DrawState -> Prop) m rect s,
  (forall x, R x x) ->
  (forall x y z, R x y -> R y z -> R x z) ->
  (forall tile tl b i j x, R x (draw_tile loadFromData m tile tl b i j x)) ->
  R s (draw loadFromData m rect s).
Proof.
  intros R m rect s Hrefl Htrans Hb. unfold draw.
  apply for_loop_preorder; [exact Hrefl | exact Htrans|].
  intros i x. apply for_loop_preorder; [exact Hrefl | exact Htrans|].
  intros j y. apply Hb.
Qed.

(** X13. [draw] looks into the cache once for every tile of its grid,
    the number of columns times the number of rows, and paints at most
    that many pixmaps. *)
Theorem draw_lookups : forall m rect s,
  count_events is_cache_find (draw loadFromData m rect s)
  = (count_events is_cache_find s + draw_columns m rect * draw_rows m rect)%nat
  /\ (count_events is_draw_pixmap (draw loadFromData m rect s)
      <= count_events is_draw_pixmap s
         + draw_columns m rect * draw_rows m rect)%nat.
Proof.
  intros m rect s.
  destruct (draw_loop_counts (fun _ => True) (count_events is_cache_find)
              1%nat m rect s) as [_ Hf]; [|exact I|].
  { intros tile tl b i j x _. split; [exact I|]. apply draw_tile_counts. }
  split; [rewrite Hf; lia|].
  pose proof (draw_loop_preorder
    (fun x y => (count_events is_draw_pixmap y + count_events is_cache_find x
                 <= count_events is_draw_pixmap x
                    + count_events is_cache_find y)%nat) m rect s) as Hp.
  cbv beta in Hp. rewrite Hf in Hp.
  assert (H : (count_events is_draw_pixmap (draw loadFromData m rect s)
               + count_events is_cache_find s
               <= count_events is_draw_pixmap s
                  + (count_events is_cache_find s
                     + draw_columns m rect * draw_rows m rect * 1))%nat);
    [|lia].
  apply Hp.
  - intro x. lia.
  - intros x y z Hxy Hyz. lia.
  - intros tile tl b i j x.
    destruct (draw_tile_counts m tile tl b i j x) as [H1 H2]. lia.
Qed.





Lemma draw_tile_miss : forall m tile tl b i j x,
  (forall t, cache_find (tile_key m t) (ds_cache x) = None) ->
  (forall t, loadFromData (tileData m (_zoom m) t) = None) ->
  draw_tile loadFromData m tile tl b i j x
  = emit (EvTileData (_zoom m)
            (mkQPoint (add (pt_x tile) i) (add (pt_y tile) j)))
         (emit (EvCacheFind
                  (tile_key m (mkQPoint (add (pt_x tile) i)
                                        (add (pt_y tile) j)))) x).
Proof.
  intros m tile tl b i j x Hc Hd. unfold draw_tile.
  cbn [ds_cache emit]. rewrite Hc, Hd. reflexivity.
Qed.

(** X15. When no tile of the map is cached and no tile data decodes (as
    on a closed connection, which yields no data), [draw] asks the table
    for every tile of its grid, paints nothing and leaves the cache as it
    was. *)
Theorem draw_missing_tiles : forall m rect s,
  (forall t, cache_find (tile_key m t) (ds_cache s) = None) ->
  (forall t, loadFromData (tileData m (_zoom m) t) = None) ->
  ds_cache (draw loadFromData m rect s) = ds_cache s
  /\ count_events is_draw_pixmap (draw loadFromData m rect s)
     = count_events is_draw_pixmap s
  /\ count_events is_cache_insert (draw loadFromData m rect s)
     = count_events is_cache_insert s
  /\ count_events is_tile_data (draw loadFromData m rect s)
     = (count_events is_tile_data s
        + draw_columns m rect * draw_rows m rect)%nat.
Proof.
  intros m rect s Hc Hd.
  assert (Hstep : forall p k,
            (forall e, is_cache_find e = true -> p e = false) ->
            (forall z t, p (EvTileData z t) = true -> k = 1%nat) ->
            (forall z t, p (EvTileData z t) = false -> k = 0%nat) ->
            forall tile tl b i j x,
              ds_cache x = ds_cache s ->
              ds_cache (draw_tile loadFromData m tile tl b i j x)
              = ds_cache s
              /\ count_events p (draw_tile loadFromData m tile tl b i j x)
                 = (count_events p x + k)%nat).
  { intros p k Hfind H1 H0 tile tl b i j x Hx.
    rewrite draw_tile_miss; [|intro t; rewrite Hx; apply Hc | exact Hd].
    split; [exact Hx|]. rewrite !count_emit.
    rewrite (Hfind (EvCacheFind _) eq_refl).
    destruct (p (EvTileData _ _)) eqn:Hp;
      [rewrite (H1 _ _ Hp) | rewrite (H0 _ _ Hp)]; lia. }
  destruct (draw_loop_counts (fun x => ds_cache x = ds_cache s)
              (count_events is_draw_pixmap) 0%nat m rect s) as [Hcache Hp];
    [|reflexivity|].
  { apply Hstep; [now intros [] | discriminate | reflexivity]. }
  destruct (draw_loop_counts (fun x => ds_cache x = ds_cache s)
              (count_events is_cache_insert) 0%nat m rect s) as [_ Hi];
    [|reflexivity|].
  { apply Hstep; [now intros [] | discriminate | reflexivity]. }
  destruct (draw_loop_counts (fun x => ds_cache x = ds_cache s)
              (count_events is_tile_data) 1%nat m rect s) as [_ Ht];
    [|reflexivity|].
  { apply Hstep; [now intros [] | reflexivity | discriminate]. }
  split; [exact Hcache|]. split; [rewrite Hp; lia|].
  split; [rewrite Hi; lia | rewrite Ht; lia].
Qed.

End DrawMore.

Lemma draw_missing_tiles_witness :
  (forall t, cache_find (tile_key world_map t) (ds_cache fresh) = None)
  /\ (forall t, decode (tileData world_map (_zoom world_map) t) = None)
  /\ ds_cache (draw (O := OsmSpec.osm) (C := OsmSpec.config) decode world_map
                 (mkQRectF 0 0 100 100) fresh)
     = ds_cache fresh
  /\ count_events is_draw_pixmap
       (draw (O := OsmSpec.osm) (C := OsmSpec.config) decode world_map
          (mkQRectF 0 0 100 100) fresh)
     = count_events is_draw_pixmap fresh.
Proof.
  assert (Hc : forall t,
             cache_find (tile_key world_map t) (ds_cache fresh) = None)
    by (intro t; reflexivity).
  assert (Hd : forall t,
             decode (tileData world_map (_zoom world_map) t) = None)
    by (intro t; reflexivity).
  destruct (draw_missing_tiles (O := OsmSpec.osm) (C := OsmSpec.config)
              decode world_map (mkQRectF 0 0 100 100) fresh Hc Hd)
    as (H1 & H2 & _).
  exact (conj Hc (conj Hd (conj H1 H2))).
Defined.


(** ** Cache keys *)

Lemma append_cancel : forall p a b : string, (p ++ a = p ++ b)%string -> a = b.
Proof.
  induction p as [|c p IH]; intros a b H; simpl in H; [exact H|].
  injection H as H. now apply IH.
Qed.

(** Two strings free of a separator, each followed by the separator,
    are told apart by what precedes the first separator. *)
Lemma split_at_separator : forall c a a' b b',
  contains c a = false -> contains c a' = false ->
  (a ++ String c b = a' ++ String c b')%string ->
  a = a' /\ b = b'.
Proof.
  intros c. induction a as [|x a IH]; intros [|x' a'] b b' Ha Ha' H;
    simpl in *.
  - injection H as H. now split.
  - injection H as Hx H. subst x'. rewrite Ascii.eqb_refl in Ha'. discriminate.
  - injection H as Hx H. subst x. rewrite Ascii.eqb_refl in Ha. discriminate.
  - injection H as Hx H. subst x'.
    apply orb_false_iff in Ha, Ha'.
    destruct (IH a' b b' (proj2 Ha) (proj2 Ha') H) as [-> ->]. now split.
Qed.

Lemma digits_no_underscore : forall d,
  contains "_" (NilEmpty.string_of_uint d) = false.
Proof. induction d; simpl; auto. Qed.

Lemma number_no_underscore : forall n, contains "_" (number n) = false.
Proof.
  intro n. unfold number, NilZero.string_of_int, NilZero.string_of_uint.
  destruct (Z.to_int n) as [d|d]; destruct d; simpl;
    auto using digits_no_underscore.
Qed.

Lemma number_injective : forall n n', number n = number n' -> n = n'.
Proof.
  intros n n' H. unfold number in H.
  apply DecimalZ.to_int_inj.
  assert (Hn : forall z, NilZero.int_of_string
                           (NilZero.string_of_int (Z.to_int z))
                         = Some (Z.to_int z)).
  { intro z. apply NilZero.isi.
    - destruct z; simpl; try discriminate.
      intro Hp. injection Hp as Hp. now apply Unsigned.to_uint_nonnil in Hp.
    - destruct z; simpl; try discriminate.
      intro Hp. injection Hp as Hp. now apply Unsigned.to_uint_nonnil in Hp. }
  pose proof (Hn n) as H1. rewrite H, Hn in H1. congruence.
Qed.

(** X16. The cache keys of one file tell zoom levels and tiles apart:
    two maps on the same file name give the same key only to the same
    tile at the same zoom. *)
Theorem tile_key_injective : forall m m' t t',
  _fileName m = _fileName m' ->
  tile_key m t = tile_key m' t' ->
  _zoom m = _zoom m' /\ t = t'.
Proof.
  intros m m' [x y] [x' y'] Hf Hk. unfold tile_key in Hk.
  cbn [pt_x pt_y] in Hk. rewrite Hf in Hk.
  apply append_cancel in Hk. cbn [append] in Hk. injection Hk as Hk.
  apply split_at_separator in Hk; try apply number_no_underscore.
  destruct Hk as [Hz Hk].
  apply split_at_separator in Hk; try apply number_no_underscore.
  destruct Hk as [Hx Hy].
  apply number_injective in Hz, Hx, Hy. subst. now split.
Qed.

Lemma tile_key_injective_witness :
  _fileName pyramid_map = _fileName (load pyramid_map)
  /\ tile_key pyramid_map (mkQPoint 12 3)
     = tile_key (load pyramid_map) (mkQPoint 12 3)
  /\ _zoom pyramid_map = _zoom (load pyramid_map)
  /\ mkQPoint 12 3 = mkQPoint 12 3.
Proof.
  assert (Hf : _fileName pyramid_map = _fileName (load pyramid_map))
    by reflexivity.
  assert (Hk : tile_key pyramid_map (mkQPoint 12 3)
               = tile_key (load pyramid_map) (mkQPoint 12 3))
    by reflexivity.
  exact (conj Hf (conj Hk (tile_key_injective pyramid_map (load pyramid_map)
                             (mkQPoint 12 3) (mkQPoint 12 3) Hf Hk))).
Defined.

(** ** The projected bounds and the place of a tile *)

Section BoundsMore.

Context {O : Osm} {C : Config}.
Variable loadFromData : QByteArray -> option QPixmap.

Lemma xy2ll_ll2xy_at : forall m c,
  m2ll (ll2m c) = c ->
  zoom2scale (_zoom m) <> 0 ->
  0 < _tileRatio m ->
  xy2ll m (ll2xy m c) = c.
Proof.
  intros m c Hc Hs Ht. pose proof (coordinatesRatio_pos m Ht) as Hr.
  unfold xy2ll, ll2xy, pf_mul, pf_div. cbn [pf_x pf_y].
  rewrite <- Hc at 3. f_equal.
  destruct (ll2m c) as [x y]. cbn [pf_x pf_y]. f_equal; field; split; lra.
Qed.

(** X17. In exact real arithmetic (the [double]s read as real numbers):
    when [m2ll] inverts [ll2m] at the two corners of the bounds, the scale
    of the current zoom is not zero and the tile ratio is positive, the
    top-left and the bottom-right corner of the rectangle [bounds] returns
    are taken back by [xy2ll] to the corners of the geographic bounds. *)
Theorem bounds_corners : forall m,
  m2ll (ll2m (topLeft (_bounds m))) = topLeft (_bounds m) ->
  m2ll (ll2m (bottomRight (_bounds m))) = bottomRight (_bounds m) ->
  zoom2scale (_zoom m) <> 0 ->
  0 < _tileRatio m ->
  xy2ll m (rf_topLeft (bounds m)) = topLeft (_bounds m)
  /\ xy2ll m (mkQPointF (rf_right (bounds m)) (rf_bottom (bounds m)))
     = bottomRight (_bounds m).
Proof.
  intros m Htl Hbr Hs Ht. unfold bounds, QRectF_of_corners, rf_topLeft,
    rf_right, rf_bottom. cbn [rf_x rf_y rf_w rf_h]. split.
  - transitivity (xy2ll m (ll2xy m (topLeft (_bounds m))));
      [reflexivity | now apply xy2ll_ll2xy_at].
  - transitivity (xy2ll m (ll2xy m (bottomRight (_bounds m))));
      [|now apply xy2ll_ll2xy_at].
    f_equal. unfold ll2xy, pf_div. cbn [pf_x pf_y]. f_equal; lra.
Qed.

Lemma offset_exact : forall a i,
  representable i -> sub (add a i) a = i.
Proof.
  intros a i Hi. unfold sub, add. rewrite wrap_congr_l.
  replace (a + i - a)%Z with i by lia. now apply wrap_representable.
Qed.

(** X18. A tile whose pixmap is in the cache is painted without the
    table being asked: the loop body looks the key up and paints the
    pixmap, with the image ratio when [ENABLE_HIDPI] is set, [i] tile
    sizes right of and [j] tile sizes below the larger of the tile-aligned
    origin and the top-left corner of the bounds, also when the tile
    index wraps around; the cache is left as it was. *)
Theorem draw_tile_cached : forall m tile tl b i j s pm,
  representable i -> representable j ->
  cache_find (tile_key m (mkQPoint (add (pt_x tile) i) (add (pt_y tile) j)))
             (ds_cache s) = Some pm ->
  draw_tile loadFromData m tile tl b i j s
  = mkDrawState (ds_cache s)
      (ds_events s
       ++ [ EvCacheFind (tile_key m (mkQPoint (add (pt_x tile) i)
                                              (add (pt_y tile) j)));
            EvDrawPixmap
              (mkQPointF (qMaxR (pf_x tl) (rf_left b) + IZR i * tileSize m)
                         (qMaxR (pf_y tl) (rf_top b) + IZR j * tileSize m))
              (if ENABLE_HIDPI then setDevicePixelRatio pm (imageRatio m)
               else pm) ]).
Proof.
  intros m tile tl b i j s pm Hi Hj Hc. unfold draw_tile.
  cbn [ds_cache emit pt_x pt_y]. rewrite Hc.
  rewrite (offset_exact _ i Hi), (offset_exact _ j Hj).
  unfold emit, to_double. cbn [ds_cache ds_events].
  rewrite <- app_assoc. reflexivity.
Qed.

End BoundsMore.

Lemma bounds_corners_witness :
  @zoom2scale OsmSpec.osm (_zoom world_map) <> 0
  /\ 0 < _tileRatio world_map
  /\ xy2ll (O := OsmSpec.osm) world_map
       (rf_topLeft (bounds (O := OsmSpec.osm) world_map))
     = topLeft (_bounds world_map).
Proof.
  assert (Hs : @zoom2scale OsmSpec.osm (_zoom world_map) <> 0).
  { rewrite world_map_scale. lra. }
  assert (Ht : 0 < _tileRatio world_map).
  { rewrite world_map_unfolded. cbn [_tileRatio]. lra. }
  destruct world_bounds as (north & south & Hb & Hn & Hso).
  assert (Htl : @m2ll OsmSpec.osm (@ll2m OsmSpec.osm (topLeft (_bounds world_map)))
                = topLeft (_bounds world_map)).
  { rewrite Hb. apply OsmSpec_m2ll_ll2m. cbn [topLeft lat]. lra. }
  assert (Hbr : @m2ll OsmSpec.osm
                  (@ll2m OsmSpec.osm (bottomRight (_bounds world_map)))
                = bottomRight (_bounds world_map)).
  { rewrite Hb. apply OsmSpec_m2ll_ll2m. cbn [bottomRight lat]. lra. }
  destruct (bounds_corners (O := OsmSpec.osm) world_map Htl Hbr Hs Ht)
    as [H _].
  exact (conj Hs (conj Ht H)).
Defined.

Lemma draw_tile_cached_witness :
  representable 1 /\ representable 0
  /\ ds_events
       (draw_tile (C := OsmSpec.config) decode
          (load world_map) (mkQPoint 0 0) (mkQPointF 0 0)
          (mkQRectF (-128) (-128) 256 256) 1 0
          (mkDrawState [("world.mbtiles-0_1_0"%string, mkQPixmap [x89] 1)]
                       []))
     = [ EvCacheFind "world.mbtiles-0_1_0";
         EvDrawPixmap
           (mkQPointF
              (qMaxR 0 (-128)
               + IZR 1 * tileSize (C := OsmSpec.config) (load world_map))
              (qMaxR 0 (-128)
               + IZR 0 * tileSize (C := OsmSpec.config) (load world_map)))
           (mkQPixmap [x89] 1) ].
Proof.
  assert (H1 : representable 1) by (unfold representable, INT_MIN, INT_MAX; lia).
  assert (H0 : representable 0) by (unfold representable, INT_MIN, INT_MAX; lia).
  split; [exact H1|]. split; [exact H0|].
  assert (Hc : cache_find
                 (tile_key (load world_map)
                    (mkQPoint (add (pt_x (mkQPoint 0 0)) 1)
                              (add (pt_y (mkQPoint 0 0)) 0)))
                 (ds_cache
                    (mkDrawState
                       [("world.mbtiles-0_1_0"%string, mkQPixmap [x89] 1)]
                       []))
               = Some (mkQPixmap [x89] 1)) by reflexivity.
  rewrite (draw_tile_cached (C := OsmSpec.config) decode
             (load world_map) (mkQPoint 0 0) (mkQPointF 0 0)
             (mkQRectF (-128) (-128) 256 256) 1 0 _ (mkQPixmap [x89] 1)
             H1 H0 Hc).
  reflexivity.
Defined.
